(** * api_concierge_lib: message classification and state codec

    A shallow embedding of [api_concierge_lib/api_concierge_lib.py].

    Data model.
    - A Python [str] is the list of its code points ([pystr]).  [bytes] are
      lists of numbers below 256.
    - A Python value that can travel in a JSON document is a [pyval]:
      [None], [bool], [int], [str], [list] and [dict] with [str] keys.
      Floats are not part of the model.
    - A [dict] is the list of its items in insertion order; a Python dict
      has pairwise distinct keys ([dict_wf]).
    - Exceptions are values of [exn]; a function that can raise returns a
      [result].

    Library functions ([json.dumps], [json.loads], [base64.urlsafe_b64encode],
    [base64.urlsafe_b64decode], [str.lower], [str.startswith], [re.match])
    are modelled after CPython; the scope of each model is stated where it
    is defined.  Integers are unbounded and recursion is unlimited: the
    interpreter's limits on recursion depth and on the digits of an integer
    are not modelled. *)

From Stdlib Require Import String Ascii.
From Stdlib Require Import List NArith ZArith Bool Lia Permutation.
Import ListNotations.

Set Implicit Arguments.

(** ** Strings *)

Definition pystr := list N.

(** The Python string with the characters of an ASCII literal. *)
Definition str (s : string) : pystr :=
  map N_of_ascii (list_ascii_of_string s).

Fixpoint pystr_eqb (a b : pystr) : bool :=
  match a, b with
  | [], [] => true
  | x :: a', y :: b' => N.eqb x y && pystr_eqb a' b'
  | _, _ => false
  end.

(** [str.lower].  Only ASCII letters are mapped; every use in the library
    compares the result with the lower-cased ASCII name of a reserved field,
    and no such name contains a letter that is the lower case of a non-ASCII
    code point, so the comparisons come out as in Python. *)
Definition lower_char (c : N) : N :=
  if (65 <=? c)%N && (c <=? 90)%N then (c + 32)%N else c.

Definition lower (s : pystr) : pystr := map lower_char s.

(** [s.startswith(p)] *)
Fixpoint startswith (s p : pystr) {struct p} : bool :=
  match p, s with
  | [], _ => true
  | y :: p', x :: s' => N.eqb x y && startswith s' p'
  | _ :: _, [] => false
  end.

(** ** Values *)

Unset Elimination Schemes.
Inductive pyval : Type :=
| VNone
| VBool (b : bool)
| VInt (z : Z)
| VStr (s : pystr)
| VList (l : list pyval)
| VDict (d : list (pystr * pyval)).
Set Elimination Schemes.

Definition dict := list (pystr * pyval).

(** [d.get(k)] *)
Fixpoint dict_get (d : dict) (k : pystr) : option pyval :=
  match d with
  | [] => None
  | (k', v) :: d' => if pystr_eqb k' k then Some v else dict_get d' k
  end.

(** [d[k] = v]: an existing key keeps its position, a new key goes last. *)
Fixpoint dict_set (d : dict) (k : pystr) (v : pyval) : dict :=
  match d with
  | [] => [(k, v)]
  | (k', v') :: d' =>
      if pystr_eqb k' k then (k', v) :: d' else (k', v') :: dict_set d' k v
  end.

Definition keys (d : dict) : list pystr := map fst d.

(** The keys of a Python dict are pairwise distinct. *)
Definition dict_wf (d : dict) : Prop := NoDup (keys d).

(** [a == b] on values: [bool] compares as the integers 0 and 1, lists
    compare element by element, dicts compare as mappings (same length and
    every item of [a] found in [b] with an equal value). *)
Fixpoint py_eq (a b : pyval) {struct a} : bool :=
  match a, b with
  | VNone, VNone => true
  | VBool x, VBool y => Bool.eqb x y
  | VBool x, VInt y => Z.eqb (Z.b2z x) y
  | VInt x, VBool y => Z.eqb x (Z.b2z y)
  | VInt x, VInt y => Z.eqb x y
  | VStr s, VStr t => pystr_eqb s t
  | VList l, VList m =>
      (fix all2 (l : list pyval) (m : list pyval) {struct l} : bool :=
         match l, m with
         | [], [] => true
         | x :: l', y :: m' => py_eq x y && all2 l' m'
         | _, _ => false
         end) l m
  | VDict d, VDict e =>
      Nat.eqb (length d) (length e) &&
      (fix items (d : list (pystr * pyval)) : bool :=
         match d with
         | [] => true
         | (k, v) :: d' =>
             match dict_get e k with
             | Some w => py_eq v w
             | None => false
             end && items d'
         end) d
  | _, _ => false
  end.

(** [x is None] *)
Definition is_none (v : pyval) : bool :=
  match v with VNone => true | _ => false end.

(** [bool(v)]: [None], [False], [0], the empty string, list and dict are
    false. *)
Definition truthy (v : pyval) : bool :=
  match v with
  | VNone => false
  | VBool b => b
  | VInt z => negb (Z.eqb z 0)
  | VStr s => match s with [] => false | _ => true end
  | VList l => match l with [] => false | _ => true end
  | VDict d => match d with [] => false | _ => true end
  end.

(** ** Exceptions *)

Inductive exn : Type :=
| TypeError
| ValueError
| InvalidRequestError
| InvalidStateError.

Inductive result (A : Type) : Type :=
| Ok (a : A)
| Raise (e : exn).

Arguments Raise {A} e.

Definition bind {A B : Type} (r : result A) (k : A -> result B) : result B :=
  match r with
  | Ok a => k a
  | Raise e => Raise e
  end.

Notation "x <- r ;; k" := (bind r (fun x => k))
  (at level 61, r at next level, right associativity).

(** ** Library model: base64 *)

Module Base64.

Local Open Scope N_scope.

(** The standard alphabet, [A-Za-z0-9+/]. *)
Definition table_b2a (i : N) : N :=
  if i <? 26 then 65 + i
  else if i <? 52 then 97 + (i - 26)
  else if i <? 62 then 48 + (i - 52)
  else if i =? 62 then 43
  else 47.

Definition table_a2b (c : N) : option N :=
  if (65 <=? c) && (c <=? 90) then Some (c - 65)
  else if (97 <=? c) && (c <=? 122) then Some (c - 97 + 26)
  else if (48 <=? c) && (c <=? 57) then Some (c - 48 + 52)
  else if c =? 43 then Some 62
  else if c =? 47 then Some 63
  else None.

Definition PAD : N := 61.

(** [binascii.b2a_base64(bs, newline=False)]: three bytes give four
    characters, a last group of one or two bytes is padded with [=]. *)
Fixpoint b2a_base64 (bs : list N) : list N :=
  match bs with
  | [] => []
  | [a] =>
      [table_b2a (N.shiftr a 2);
       table_b2a (N.shiftl (N.land a 3) 4);
       PAD; PAD]
  | [a; b] =>
      [table_b2a (N.shiftr a 2);
       table_b2a (N.lor (N.shiftl (N.land a 3) 4) (N.shiftr b 4));
       table_b2a (N.shiftl (N.land b 15) 2);
       PAD]
  | a :: b :: c :: rest =>
      table_b2a (N.shiftr a 2)
      :: table_b2a (N.lor (N.shiftl (N.land a 3) 4) (N.shiftr b 4))
      :: table_b2a (N.lor (N.shiftl (N.land b 15) 2) (N.shiftr c 6))
      :: table_b2a (N.land c 63)
      :: b2a_base64 rest
  end.

(** [binascii.a2b_base64(s)] in its default, non-strict mode: characters
    outside the alphabet are skipped; a pad character that completes a
    group of four ends the decoding, any other pad is skipped; the input
    must not end inside a group.  [quad_pos] is the position in the
    current group, [leftchar] the bits not yet written, [pads] the number
    of pads seen since the last data character.  [None] is
    [binascii.Error]. *)
Fixpoint a2b_loop (s : list N) (quad_pos leftchar pads : N)
  : option (list N) :=
  match s with
  | [] => if quad_pos =? 0 then Some [] else None
  | this_ch :: rest =>
      if this_ch =? PAD then
        if (2 <=? quad_pos) && (4 <=? quad_pos + (pads + 1)) then Some []
        else a2b_loop rest quad_pos leftchar
               (if 2 <=? quad_pos then pads + 1 else pads)
      else
        match table_a2b this_ch with
        | None => a2b_loop rest quad_pos leftchar pads
        | Some v =>
            if quad_pos =? 0 then a2b_loop rest 1 v 0
            else if quad_pos =? 1 then
              option_map (cons (N.lor (N.shiftl leftchar 2) (N.shiftr v 4)))
                (a2b_loop rest 2 (N.land v 15) 0)
            else if quad_pos =? 2 then
              option_map (cons (N.lor (N.shiftl leftchar 4) (N.shiftr v 2)))
                (a2b_loop rest 3 (N.land v 3) 0)
            else
              option_map (cons (N.lor (N.shiftl leftchar 6) v))
                (a2b_loop rest 0 0 0)
        end
  end.

Definition a2b_base64 (s : list N) : option (list N) := a2b_loop s 0 0 0.

(** [bytes.maketrans(b'+/', b'-_')] and its inverse. *)
Definition urlsafe_encode_translation (c : N) : N :=
  if c =? 43 then 45 else if c =? 47 then 95 else c.

Definition urlsafe_decode_translation (c : N) : N :=
  if c =? 45 then 43 else if c =? 95 then 47 else c.

Definition byte (b : N) : Prop := b < 256.

(** What the decoder reads for the sextet [i] of the encoder. *)
Definition urlsafe (i : N) : N :=
  urlsafe_decode_translation (urlsafe_encode_translation (table_b2a i)).

(** [base64.urlsafe_b64encode(bs)] *)
Definition urlsafe_b64encode (bs : list N) : list N :=
  map urlsafe_encode_translation (b2a_base64 bs).

(** [base64.urlsafe_b64decode(s)] for a [str] argument: the string must be
    ASCII ([ValueError] otherwise), is translated back to the standard
    alphabet and decoded.  [None] stands for the exception raised. *)
Definition urlsafe_b64decode (s : pystr) : option (list N) :=
  if forallb (fun c => c <? 128) s
  then a2b_base64 (map urlsafe_decode_translation s)
  else None.

End Base64.

(** ** Library model: json *)

Module Json.

Local Open Scope N_scope.

(** *** [json.dumps] with its default arguments *)

(** [int.__repr__] of a natural number: its decimal digits. *)
Fixpoint digits_fuel (fuel : nat) (n : N) (acc : list N) : list N :=
  match fuel with
  | O => acc
  | S fuel' =>
      let acc' := (48 + n mod 10) :: acc in
      if n / 10 =? 0 then acc' else digits_fuel fuel' (n / 10) acc'
  end.

Definition repr_N (n : N) : list N :=
  digits_fuel (S (N.to_nat (N.log2 n))) n [].

Definition repr_int (z : Z) : list N :=
  if (z <? 0)%Z then 45 :: repr_N (Z.abs_N z) else repr_N (Z.to_N z).

Definition hex_digit (n : N) : N := if n <? 10 then 48 + n else 87 + n.

(** ['\\u{0:04x}'.format(n)] for [n < 0x10000] *)
Definition u_escape (n : N) : list N :=
  [92; 117;
   hex_digit (n / 4096 mod 16); hex_digit (n / 256 mod 16);
   hex_digit (n / 16 mod 16); hex_digit (n mod 16)].

(** The replacement of one character in [py_encode_basestring_ascii]:
    the quote, the backslash and the characters outside [' '..'~'] are
    escaped, characters above the basic plane as a surrogate pair. *)
Definition escape_char (c : N) : list N :=
  if c =? 34 then [92; 34]
  else if c =? 92 then [92; 92]
  else if c =? 10 then [92; 110]
  else if c =? 13 then [92; 114]
  else if c =? 9 then [92; 116]
  else if c =? 8 then [92; 98]
  else if c =? 12 then [92; 102]
  else if (32 <=? c) && (c <=? 126) then [c]
  else if c <? 65536 then u_escape c
  else
    let n := c - 65536 in
    u_escape (N.lor 55296 (N.land (N.shiftr n 10) 1023))
    ++ u_escape (N.lor 56320 (N.land n 1023)).

Definition encode_basestring_ascii (s : pystr) : list N :=
  34 :: flat_map escape_char s ++ [34].

(** Items are separated by [", "], keys from values by [": "]. *)
Fixpoint dumps (v : pyval) : list N :=
  match v with
  | VNone => str "null"
  | VBool true => str "true"
  | VBool false => str "false"
  | VInt z => repr_int z
  | VStr s => encode_basestring_ascii s
  | VList l =>
      91 ::
      (fix elems (l : list pyval) : list N :=
         match l with
         | [] => []
         | x :: xs =>
             dumps x ++ match xs with [] => [] | _ => 44 :: 32 :: elems xs end
         end) l
      ++ [93]
  | VDict d =>
      123 ::
      (fix pairs (d : list (pystr * pyval)) : list N :=
         match d with
         | [] => []
         | (k, x) :: xs =>
             encode_basestring_ascii k ++ 58 :: 32 :: dumps x
             ++ match xs with [] => [] | _ => 44 :: 32 :: pairs xs end
         end) d
      ++ [125]
  end.

(** *** [json.loads] on ASCII text *)

Definition is_ws (c : N) : bool :=
  (c =? 32) || (c =? 9) || (c =? 10) || (c =? 13).

Fixpoint skip_ws (s : list N) : list N :=
  match s with
  | [] => []
  | c :: r => if is_ws c then skip_ws r else s
  end.

Definition is_digit (c : N) : bool := (48 <=? c) && (c <=? 57).

Definition hex_val (c : N) : option N :=
  if is_digit c then Some (c - 48)
  else if (97 <=? c) && (c <=? 102) then Some (c - 87)
  else if (65 <=? c) && (c <=? 70) then Some (c - 55)
  else None.

(** [_decode_uXXXX]: four hexadecimal digits. *)
Definition decode_uXXXX (s : list N) : option (N * list N) :=
  match s with
  | a :: b :: c :: d :: rest =>
      match hex_val a, hex_val b, hex_val c, hex_val d with
      | Some x, Some y, Some z, Some w =>
          Some (((x * 16 + y) * 16 + z) * 16 + w, rest)
      | _, _, _, _ => None
      end
  | _ => None
  end.

(** The [BACKSLASH] table of one-character escapes. *)
Definition backslash (esc : N) : option N :=
  if esc =? 34 then Some 34
  else if esc =? 92 then Some 92
  else if esc =? 47 then Some 47
  else if esc =? 98 then Some 8
  else if esc =? 102 then Some 12
  else if esc =? 110 then Some 10
  else if esc =? 114 then Some 13
  else if esc =? 116 then Some 9
  else None.

Definition cons_char (c : N) (r : option (pystr * list N))
  : option (pystr * list N) :=
  match r with
  | Some (s, rest) => Some (c :: s, rest)
  | None => None
  end.

(** [scanstring] in strict mode, started after the opening quote; returns
    the string and the text after the closing quote.  An escaped high
    surrogate followed by an escaped low surrogate is one character. *)
Fixpoint scanstring_fuel (fuel : nat) (s : list N)
  : option (pystr * list N) :=
  match fuel with
  | O => None
  | S fuel' =>
      match s with
      | [] => None
      | c :: rest =>
          if c =? 34 then Some ([], rest)
          else if c =? 92 then
            match rest with
            | [] => None
            | esc :: rest' =>
                if esc =? 117 then
                  match decode_uXXXX rest' with
                  | None => None
                  | Some (uni, rest1) =>
                      if (55296 <=? uni) && (uni <=? 56319) then
                        match rest1 with
                        | b1 :: b2 :: rest2 =>
                            if (b1 =? 92) && (b2 =? 117) then
                              match decode_uXXXX rest2 with
                              | None => None
                              | Some (uni2, rest3) =>
                                  if (56320 <=? uni2) && (uni2 <=? 57343)
                                  then
                                    cons_char
                                      (65536 +
                                       N.lor (N.shiftl (uni - 55296) 10)
                                             (uni2 - 56320))
                                      (scanstring_fuel fuel' rest3)
                                  else
                                    cons_char uni
                                      (scanstring_fuel fuel' rest1)
                              end
                            else cons_char uni (scanstring_fuel fuel' rest1)
                        | _ => cons_char uni (scanstring_fuel fuel' rest1)
                        end
                      else cons_char uni (scanstring_fuel fuel' rest1)
                  end
                else
                  match backslash esc with
                  | Some ch => cons_char ch (scanstring_fuel fuel' rest')
                  | None => None
                  end
            end
          else if c <? 32 then None
          else cons_char c (scanstring_fuel fuel' rest)
      end
  end.

Definition scanstring (s : list N) : option (pystr * list N) :=
  scanstring_fuel (S (length s)) s.

Fixpoint span_digits (s : list N) : list N * list N :=
  match s with
  | c :: r =>
      if is_digit c then let (ds, rest) := span_digits r in (c :: ds, rest)
      else ([], s)
  | [] => ([], [])
  end.

(** [int(digits)] *)
Definition digit_step (a c : N) : N := 10 * a + (c - 48).

Definition int_of_digits (ds : list N) : N := fold_left digit_step ds 0.

(** The integer part of [NUMBER_RE]: an optional minus sign, then either
    a single zero or a non-zero digit followed by any digits. *)
Definition match_integer (s : list N) : option (Z * list N) :=
  let (neg, s1) :=
    match s with
    | c :: t => if c =? 45 then (true, t) else (false, s)
    | [] => (false, s)
    end in
  match s1 with
  | [] => None
  | d :: t =>
      if d =? 48 then Some (0%Z, t)
      else if is_digit d then
        let (ds, rest) := span_digits t in
        let n := Z.of_N (int_of_digits (d :: ds)) in
        Some (if neg then (- n)%Z else n, rest)
      else None
  end.

(** Whether [NUMBER_RE] goes on with a fraction or an exponent. *)
Definition has_frac (s : list N) : bool :=
  match s with
  | c :: d :: _ => (c =? 46) && is_digit d
  | _ => false
  end.

Definition has_exp (s : list N) : bool :=
  match s with
  | c :: r =>
      ((c =? 101) || (c =? 69)) &&
      match r with
      | d :: r' =>
          if (d =? 43) || (d =? 45)
          then match r' with d' :: _ => is_digit d' | [] => false end
          else is_digit d
      | [] => false
      end
  | [] => false
  end.

Definition map_fst {A B C : Type} (f : A -> B) (r : option (A * C))
  : option (B * C) :=
  match r with
  | Some (a, c) => Some (f a, c)
  | None => None
  end.

(** [dict(pairs)]: a repeated key keeps its first position and its last
    value. *)
Definition dict_of_pairs (pairs : list (pystr * pyval)) : dict :=
  fold_left (fun d kv => dict_set d (fst kv) (snd kv)) pairs [].

(** [scan_once], [JSONArray] and [JSONObject].  [None] is a decoding
    error; it is also the answer for a number with a fraction or an
    exponent and for [NaN] and [Infinity], whose values are floats.
    [parse_elems] starts at the first element of a non-empty array,
    [parse_pairs] after the opening quote of a key. *)
Fixpoint scan_once (fuel : nat) (s : list N) {struct fuel}
  : option (pyval * list N) :=
  match fuel with
  | O => None
  | S fuel' =>
      match s with
      | [] => None
      | c :: rest =>
          if c =? 34 then map_fst VStr (scanstring rest)
          else if c =? 123 then
            match skip_ws rest with
            | [] => None
            | c1 :: r1 =>
                if c1 =? 125 then Some (VDict [], r1)
                else if c1 =? 34 then
                  map_fst (fun ps => VDict (dict_of_pairs ps))
                    (parse_pairs fuel' r1)
                else None
            end
          else if c =? 91 then
            match skip_ws rest with
            | [] => None
            | c1 :: r1 =>
                if c1 =? 93 then Some (VList [], r1)
                else map_fst VList (parse_elems fuel' (c1 :: r1))
            end
          else if startswith s (str "null") then Some (VNone, skipn 4 s)
          else if startswith s (str "true") then
            Some (VBool true, skipn 4 s)
          else if startswith s (str "false") then
            Some (VBool false, skipn 5 s)
          else
            match match_integer s with
            | Some (z, r) =>
                if has_frac r || has_exp r then None else Some (VInt z, r)
            | None => None
            end
      end
  end

with parse_elems (fuel : nat) (s : list N) {struct fuel}
  : option (list pyval * list N) :=
  match fuel with
  | O => None
  | S fuel' =>
      match scan_once fuel' s with
      | None => None
      | Some (v, r) =>
          match skip_ws r with
          | [] => None
          | c :: r1 =>
              if c =? 93 then Some ([v], r1)
              else if c =? 44 then
                map_fst (cons v) (parse_elems fuel' (skip_ws r1))
              else None
          end
      end
  end

with parse_pairs (fuel : nat) (s : list N) {struct fuel}
  : option (list (pystr * pyval) * list N) :=
  match fuel with
  | O => None
  | S fuel' =>
      match scanstring s with
      | None => None
      | Some (key, r) =>
          match skip_ws r with
          | [] => None
          | c :: r1 =>
              if c =? 58 then
                match scan_once fuel' (skip_ws r1) with
                | None => None
                | Some (v, r2) =>
                    match skip_ws r2 with
                    | [] => None
                    | c2 :: r3 =>
                        if c2 =? 125 then Some ([(key, v)], r3)
                        else if c2 =? 44 then
                          match skip_ws r3 with
                          | [] => None
                          | c3 :: r4 =>
                              if c3 =? 34 then
                                map_fst (cons (key, v))
                                  (parse_pairs fuel' r4)
                              else None
                          end
                        else None
                    end
                end
              else None
          end
      end
  end.

(** [JSONDecoder.decode]: one value between optional white space. *)
Definition decode (s : list N) : option pyval :=
  let s' := skip_ws s in
  match scan_once (S (length s')) s' with
  | Some (v, r) => match skip_ws r with [] => Some v | _ => None end
  | None => None
  end.

(** [json.loads(bs)] for [bytes] that are ASCII text without NUL.  Other
    byte strings, whose encoding [json.loads] would detect first, are
    outside the model and answered with [None]. *)
Definition loads (bs : list N) : option pyval :=
  if forallb (fun b => (0 <? b) && (b <? 128)) bs then decode bs else None.

(** *** Names for the parts of the text written by [dumps] *)

(** The items of a list, separated. *)
Definition dumps_elems : list pyval -> list N :=
  fix elems (l : list pyval) : list N :=
    match l with
    | [] => []
    | x :: xs =>
        dumps x ++ match xs with [] => [] | _ => 44 :: 32 :: elems xs end
    end.

(** The items of a dict, separated. *)
Definition dumps_pairs : list (pystr * pyval) -> list N :=
  fix pairs (d : list (pystr * pyval)) : list N :=
    match d with
    | [] => []
    | (k, x) :: xs =>
        encode_basestring_ascii k ++ 58 :: 32 :: dumps x
        ++ match xs with [] => [] | _ => 44 :: 32 :: pairs xs end
    end.

(** The text after a value: nothing, or a comma or a closing bracket. *)
Definition delimiter_next (rest : list N) : bool :=
  match rest with
  | [] => true
  | c :: _ => (c =? 44) || (c =? 93) || (c =? 125)
  end.

(** The first character of a value: not white space, not a closing
    bracket. *)
Definition value_start (c : N) : bool :=
  negb (is_ws c) && negb (c =? 93) && negb (c =? 125).

Definition printable (c : N) : Prop := 32 <= c <= 126.

(** The scanner reads [v] back from the text of [v], whatever follows. *)
Definition roundtrip_at (v : pyval) : Prop :=
  forall (f : nat) (rest : list N),
    (length (dumps v) < f)%nat -> delimiter_next rest = true ->
    scan_once f (dumps v ++ rest) = Some (v, rest).

End Json.

(** ** Reserved field names *)

Definition FIELD_PREFIX : pystr := str "x-api-concierge-".
Definition REQUEST_FIELD : pystr := FIELD_PREFIX ++ str "request".
Definition RESPONSE_FIELD : pystr := FIELD_PREFIX ++ str "response".
Definition SCHEMA_FIELD : pystr := FIELD_PREFIX ++ str "schema".
Definition INSTRUCTIONS_FIELD : pystr := FIELD_PREFIX ++ str "instructions".
Definition CLIENT_FIELD : pystr := FIELD_PREFIX ++ str "client".
Definition ERROR_FIELD : pystr := FIELD_PREFIX ++ str "error".
Definition STATE_FIELD : pystr := FIELD_PREFIX ++ str "state".
Definition BASE_FIELD : pystr := FIELD_PREFIX ++ str "base".
Definition PATH_FIELD : pystr := FIELD_PREFIX ++ str "path".

(** [data_field.lower() == FIELD.lower()] *)
Definition field_is (data_field FIELD : pystr) : bool :=
  pystr_eqb (lower data_field) (lower FIELD).

(** ** State codec *)

(** [_serialize]: [json.dumps] yields ASCII text, so [encode("ascii")] and
    the final [str(..., "ascii")] change nothing. *)
Definition _serialize (data : pyval) : pystr :=
  Base64.urlsafe_b64encode (Json.dumps data).

(** The set of the pattern [[^A-Za-z0-9,;-_=]] of [_serialize_state].  In
    it [;-_] is a range, from [;] (59) to [_] (95); the set is negated. *)
Definition state_pattern_set (c : N) : bool :=
  negb (((65 <=? c)%N && (c <=? 90)%N)
        || ((97 <=? c)%N && (c <=? 122)%N)
        || ((48 <=? c)%N && (c <=? 57)%N)
        || (c =? 44)%N
        || ((59 <=? c)%N && (c <=? 95)%N)
        || (c =? 61)%N).

(** [re.match(pattern, state)] for that one-character pattern: [re.match]
    looks for a match at the start of the string only. *)
Definition re_match_state_pattern (state : pystr) : bool :=
  match state with
  | [] => false
  | c :: _ => state_pattern_set c
  end.

Definition _serialize_state (state : pyval) (serialized : bool)
  : result pystr :=
  if serialized then Ok (_serialize state)
  else
    match state with
    | VStr s =>
        if re_match_state_pattern s then Raise ValueError else Ok s
    | _ => Raise TypeError
    end.

(** [_deserialize_state].  [base64.urlsafe_b64decode] raises [TypeError]
    for an argument that is neither a string nor bytes-like; every
    exception of the [try] block becomes [InvalidStateError]. *)
Definition _deserialize_state (state_data : pyval) (serialized : bool)
  : result pyval :=
  if negb serialized then Ok state_data
  else
    match state_data with
    | VStr s =>
        match Base64.urlsafe_b64decode s with
        | Some bs =>
            match Json.loads bs with
            | Some v => Ok v
            | None => Raise InvalidStateError
            end
        | None => Raise InvalidStateError
        end
    | _ => Raise InvalidStateError
    end.

(** ** SchemaRequest *)

Module SchemaRequest.

Record t : Type := Build { client : pyval }.

Fixpoint is_schema_request (data : dict) : bool :=
  match data with
  | [] => false
  | (data_field, data_value) :: rest =>
      if field_is data_field REQUEST_FIELD
      then py_eq data_value (VStr (str "schema"))
      else is_schema_request rest
  end.

(** The loop of [load]: the first item whose key is the client field sets
    [kwargs["client"]] and ends the loop. *)
Fixpoint load_loop (data : dict) (client : pyval) : pyval :=
  match data with
  | [] => client
  | (data_field, data_value) :: rest =>
      if field_is data_field CLIENT_FIELD then data_value
      else load_loop rest client
  end.

Definition load (data : dict) : result t :=
  if negb (is_schema_request data) then Raise InvalidRequestError
  else Ok (Build (load_loop data VNone)).

End SchemaRequest.

(** ** SchemaResponse *)

Module SchemaResponse.

Record t : Type := Build {
  schema : pyval;
  instructions : pyval;
  state : pyval;
  base : pyval;
  path : pyval
}.

Definition __post_init__ (self : t) : result unit :=
  if negb (is_none (path self)) && is_none (base self)
  then Raise ValueError
  else Ok tt.

(** The constructor generated by [@dataclass]. *)
Definition make (schema instructions state base path : pyval) : result t :=
  let self := Build schema instructions state base path in
  _ <- __post_init__ self ;; Ok self.

Definition get_payload (self : t) (serialized_state : bool) : result dict :=
  let payload :=
    [(RESPONSE_FIELD, VStr (str "schema")); (SCHEMA_FIELD, schema self)] in
  let payload :=
    if negb (is_none (instructions self))
    then dict_set payload INSTRUCTIONS_FIELD (instructions self)
    else payload in
  payload <-
    (if negb (is_none (state self))
     then s <- _serialize_state (state self) serialized_state ;;
          Ok (dict_set payload STATE_FIELD (VStr s))
     else Ok payload) ;;
  Ok (if negb (is_none (base self))
      then
        let payload := dict_set payload BASE_FIELD (base self) in
        if negb (is_none (path self))
        then dict_set payload PATH_FIELD (path self)
        else payload
      else payload).

Definition get_headers (self : t) (serialized_state : bool) : result dict :=
  let headers :=
    [(RESPONSE_FIELD, VStr (str "schema"));
     (SCHEMA_FIELD, VStr (_serialize (schema self)))] in
  let headers :=
    if negb (is_none (instructions self))
    then dict_set headers INSTRUCTIONS_FIELD (instructions self)
    else headers in
  headers <-
    (if negb (is_none (state self))
     then s <- _serialize_state (state self) serialized_state ;;
          Ok (dict_set headers STATE_FIELD (VStr s))
     else Ok headers) ;;
  Ok (if negb (is_none (base self))
      then
        let headers :=
          dict_set headers BASE_FIELD (VStr (_serialize (base self))) in
        if negb (is_none (path self))
        then dict_set headers PATH_FIELD (path self)
        else headers
      else headers).

End SchemaResponse.

(** ** InvocationRequest *)

Module InvocationRequest.

Record t : Type := Build {
  payload : pyval;
  client : pyval;
  state : pyval
}.

(** The loop of [_identify] with its two variables; a request field
    whose value is not ["invoke"] returns at once. *)
Fixpoint _identify_loop (data : dict) (request state : pyval)
  : bool * pyval :=
  match data with
  | [] => if is_none request then (false, VNone) else (true, state)
  | (data_field, data_value) :: rest =>
      if field_is data_field REQUEST_FIELD then
        if negb (py_eq data_value (VStr (str "invoke")))
        then (false, VNone)
        else _identify_loop rest data_value state
      else if field_is data_field STATE_FIELD then
        _identify_loop rest request data_value
      else _identify_loop rest request state
  end.

Definition _identify (data : dict) : bool * pyval :=
  _identify_loop data VNone VNone.

(** [state] is the keyword argument, [VNone] when it is not given. *)
Definition is_invocation_request (data : dict) (state : pyval)
    (serialized_state : bool) : result bool :=
  let (result, data_state) := _identify data in
  if negb result then Ok false
  else if is_none state then Ok true
  else
    data_state <- _deserialize_state data_state serialized_state ;;
    Ok (py_eq state data_state).

(** The loop of [load_from_payload]: a key that does not start with the
    prefix goes to the payload; the first client field is recorded and
    ends the loop. *)
Fixpoint load_from_payload_loop (data : dict) (payload : dict)
    (client : pyval) : dict * pyval :=
  match data with
  | [] => (payload, client)
  | (data_field, data_value) :: rest =>
      if negb (startswith data_field FIELD_PREFIX) then
        load_from_payload_loop rest (dict_set payload data_field data_value)
          client
      else if field_is data_field CLIENT_FIELD then (payload, data_value)
      else load_from_payload_loop rest payload client
  end.

Definition load_from_payload (data : dict) (serialized_state : bool)
  : result t :=
  let (result, state) := _identify data in
  if negb result then Raise InvalidRequestError
  else
    kw_state <-
      (if negb (is_none state)
       then _deserialize_state state serialized_state
       else Ok VNone) ;;
    let (payload, kw_client) := load_from_payload_loop data [] VNone in
    Ok (Build (VDict payload) kw_client kw_state).

(** The loop of [load_from_headers]: the first client field is recorded
    and ends the loop. *)
Fixpoint load_from_headers_loop (headers : dict) (client : pyval) : pyval :=
  match headers with
  | [] => client
  | (data_field, data_value) :: rest =>
      if field_is data_field CLIENT_FIELD then data_value
      else load_from_headers_loop rest client
  end.

Definition load_from_headers (headers : dict) (payload : pyval)
    (serialized_state : bool) : result t :=
  let (result, state) := _identify headers in
  if negb result then Raise InvalidRequestError
  else
    kw_state <-
      (if negb (is_none state)
       then _deserialize_state state serialized_state
       else Ok VNone) ;;
    Ok (Build payload (load_from_headers_loop headers VNone) kw_state).

End InvocationRequest.

(** ** ErrorResponse *)

Module ErrorResponse.

Record t : Type := Build {
  error_message : pyval;
  schema : pyval;
  state : pyval;
  base : pyval;
  path : pyval
}.

Definition __post_init__ (self : t) : result unit :=
  if negb (is_none (path self)) && is_none (base self)
  then Raise ValueError
  else Ok tt.

Definition make (error_message schema state base path : pyval)
  : result t :=
  let self := Build error_message schema state base path in
  _ <- __post_init__ self ;; Ok self.

Definition get_payload (self : t) (serialized_state : bool) : result dict :=
  let payload :=
    [(RESPONSE_FIELD, VStr (str "error"));
     (ERROR_FIELD, error_message self)] in
  let payload :=
    if truthy (schema self)
    then dict_set payload SCHEMA_FIELD (schema self)
    else payload in
  payload <-
    (if negb (is_none (state self))
     then s <- _serialize_state (state self) serialized_state ;;
          Ok (dict_set payload STATE_FIELD (VStr s))
     else Ok payload) ;;
  Ok (if negb (is_none (base self))
      then
        let payload := dict_set payload BASE_FIELD (base self) in
        if negb (is_none (path self))
        then dict_set payload PATH_FIELD (path self)
        else payload
      else payload).

Definition get_headers (self : t) (serialized_state : bool) : result dict :=
  let headers :=
    [(RESPONSE_FIELD, VStr (str "error"));
     (ERROR_FIELD, error_message self)] in
  let headers :=
    if truthy (schema self)
    then dict_set headers SCHEMA_FIELD (VStr (_serialize (schema self)))
    else headers in
  headers <-
    (if negb (is_none (state self))
     then s <- _serialize_state (state self) serialized_state ;;
          Ok (dict_set headers STATE_FIELD (VStr s))
     else Ok headers) ;;
  Ok (if negb (is_none (base self))
      then
        let headers :=
          dict_set headers BASE_FIELD (VStr (_serialize (base self))) in
        if negb (is_none (path self))
        then dict_set headers PATH_FIELD (path self)
        else headers
      else headers).

End ErrorResponse.

(** ** Well-formed values and checks over bounded ranges *)

(** A code point of a Python string that JSON text can carry and give back:
    a Unicode scalar value (no surrogate). *)
Definition scalar_value (c : N) : Prop :=
  (c < 55296)%N \/ (57343 < c /\ c < 1114112)%N.

Definition str_wf (s : pystr) : Prop := Forall scalar_value s.

(** A JSON-representable value: strings of scalar values, and in every dict
    pairwise distinct keys. *)
Fixpoint json_representable (v : pyval) : Prop :=
  match v with
  | VStr s => str_wf s
  | VList l =>
      (fix all (l : list pyval) : Prop :=
         match l with
         | [] => True
         | x :: xs => json_representable x /\ all xs
         end) l
  | VDict d =>
      NoDup (map fst d) /\
      (fix all (d : list (pystr * pyval)) : Prop :=
         match d with
         | [] => True
         | (k, x) :: xs => str_wf k /\ json_representable x /\ all xs
         end) d
  | _ => True
  end.

(** The same as a check that computes. *)
Definition scalar_valueb (c : N) : bool :=
  (c <? 55296)%N || ((57343 <? c)%N && (c <? 1114112)%N).

Fixpoint nodupb (l : list pystr) : bool :=
  match l with
  | [] => true
  | k :: l' => negb (existsb (pystr_eqb k) l') && nodupb l'
  end.

Fixpoint json_representableb (v : pyval) : bool :=
  match v with
  | VStr s => forallb scalar_valueb s
  | VList l => forallb json_representableb l
  | VDict d =>
      nodupb (map fst d) &&
      forallb (fun kv => forallb scalar_valueb (fst kv)
                         && json_representableb (snd kv)) d
  | _ => true
  end.

(** [P] holds of the [count] numbers from [start] on. *)
Fixpoint forall_from (start : N) (count : nat) (P : N -> bool) : bool :=
  match count with
  | O => true
  | S k => P start && forall_from (N.succ start) k P
  end.

(** [P] holds of every number below [n]. *)
Definition forall_below (n : N) (P : N -> bool) : bool :=
  forall_from 0 (N.to_nat n) P.

(** ** The specification's wording, for comparison with the code *)

(** The raw-mode character class of the specification,
    [[A-Za-z0-9,;_=-]]. *)
Definition spec_raw_class (c : N) : bool :=
  ((65 <=? c)%N && (c <=? 90)%N)
  || ((97 <=? c)%N && (c <=? 122)%N)
  || ((48 <=? c)%N && (c <=? 57)%N)
  || (c =? 44)%N || (c =? 59)%N || (c =? 95)%N || (c =? 61)%N || (c =? 45)%N.

(** The payload of the specification: the items of the mapping whose key
    does not match the reserved-field prefix, compared case-insensitively. *)
Definition spec_payload (d : dict) : dict :=
  filter (fun kv => negb (startswith (lower (fst kv)) (lower FIELD_PREFIX))) d.

(** ** Schemas from type declarations *)

(** The objects [_get_simple_schema] tells apart: the seven builtin classes
    it names, a generic alias with the origin and the arguments that
    [typing.get_origin] and [typing.get_args] give, and any other object
    (whose origin is [None]). *)
Unset Elimination Schemes.
Inductive pytype : Type :=
| Tstr
| Tbool
| Tint
| Tfloat
| Tlist
| Ttuple
| Tdict
| Tgeneric (origin : pytype) (args : list pytype)
| Tother.
Set Elimination Schemes.

(** Exceptions of the interpreter next to those of the library.
    [JSONDecodeError] is a subclass of [ValueError]. *)
Inductive pyexn : Type :=
| Std (e : exn)
| IndexError
| KeyError
| AttributeError
| JSONDecodeError.

Inductive outcome (A : Type) : Type :=
| Return (a : A)
| Throw (e : pyexn).

Arguments Throw {A} e.

Definition obind {A B : Type} (r : outcome A) (k : A -> outcome B)
  : outcome B :=
  match r with
  | Return a => k a
  | Throw e => Throw e
  end.

Notation "x <~ r ;; k" := (obind r (fun x => k))
  (at level 61, r at next level, right associativity).

Definition lift {A : Type} (r : result A) : outcome A :=
  match r with
  | Ok a => Return a
  | Raise e => Throw (Std e)
  end.

Definition type_schema (name : string) : pyval :=
  VDict [(str "type", VStr (str name))].

(** [_get_simple_schema]; [minor] is [sys.version_info[1]]. *)
Fixpoint _get_simple_schema (minor : N) (type : pytype) : outcome pyval :=
  match type with
  | Tstr => Return (type_schema "string")
  | Tbool => Return (type_schema "boolean")
  | Tint => Return (type_schema "integer")
  | Tfloat => Return (type_schema "number")
  | Tlist | Ttuple => Return (type_schema "array")
  | Tdict => Return (type_schema "object")
  | Tother => Throw (Std ValueError)
  | Tgeneric origin args =>
      if (minor <? 8)%N then Throw (Std ValueError)
      else
        match origin with
        | Tlist =>
            match args with
            | [] => Return (type_schema "array")
            | arg :: _ =>
                items <~ _get_simple_schema minor arg ;;
                Return (VDict (dict_set [(str "type", VStr (str "array"))]
                                 (str "items") items))
            end
        | Ttuple =>
            match args with
            | [] => Return (type_schema "array")
            | _ =>
                items <~
                  (fix each (args : list pytype) : outcome (list pyval) :=
                     match args with
                     | [] => Return []
                     | arg :: args' =>
                         x <~ _get_simple_schema minor arg ;;
                         xs <~ each args' ;;
                         Return (x :: xs)
                     end) args ;;
                Return (VDict (dict_set [(str "type", VStr (str "array"))]
                                 (str "items") (VList items)))
            end
        | Tdict =>
            match args with
            | _ :: arg :: _ =>
                x <~ _get_simple_schema minor arg ;;
                Return (VDict [(str "type", VStr (str "object"));
                               (str "additionalProperties", x)])
            | _ => Throw IndexError
            end
        | _ => Throw (Std ValueError)
        end
  end.

(** The list comprehension of the tuple case, by name. *)
Definition get_simple_schema_each (minor : N)
  : list pytype -> outcome (list pyval) :=
  fix each (args : list pytype) : outcome (list pyval) :=
    match args with
    | [] => Return []
    | arg :: args' =>
        x <~ _get_simple_schema minor arg ;;
        xs <~ each args' ;;
        Return (x :: xs)
    end.

(** The names of the JSON Schema types that [_get_simple_schema] writes. *)
Definition schema_type_names : list string :=
  ["string"; "boolean"; "integer"; "number"; "array"; "object"]%string.

(** The shape of a result of [_get_simple_schema]: a JSON-representable
    dict with a type name. *)
Definition simple_schema_shape (v : pyval) : Prop :=
  json_representable v /\
  exists d name,
    v = VDict d /\ dict_get d (str "type") = Some (VStr (str name)) /\
    In name schema_type_names.

(** The loop of [simple_schema] over the items of its argument. *)
Fixpoint simple_schema_loop (minor : N) (schema : list (pystr * pytype))
    (properties : dict) : outcome dict :=
  match schema with
  | [] => Return properties
  | (key, value) :: rest =>
      x <~ _get_simple_schema minor value ;;
      simple_schema_loop minor rest (dict_set properties key x)
  end.

(** [simple_schema]; [required] is a [bool] or any other value, which is
    then stored as it is. *)
Definition simple_schema (minor : N) (schema : list (pystr * pytype))
    (required : pyval) (additional_properties : bool) : outcome dict :=
  properties <~ simple_schema_loop minor schema [] ;;
  let output :=
    [(str "$schema", VStr (str "http://json-schema.org/draft-07/schema#"));
     (str "properties", VDict properties)] in
  let output :=
    match required with
    | VBool b =>
        if b
        then dict_set output (str "required")
               (VList (map VStr (keys properties)))
        else output
    | _ => dict_set output (str "required") required
    end in
  let output :=
    if negb additional_properties
    then dict_set output (str "additionalProperties") (VBool false)
    else output in
  Return output.

(** ** aws/awslambda.py *)

Module AwsLambda.

(** The handler that [api_concierge_handler(schema, instructions)(f)]
    returns, applied to an event; [f] is the wrapped function. *)
Definition api_concierge_handler (schema instructions : pyval)
    (f : pyval -> pyval -> result pyval) (event : dict) (context : pyval)
  : result pyval :=
  if SchemaRequest.is_schema_request event then
    response <- SchemaResponse.make schema instructions VNone VNone VNone ;;
    payload <- SchemaResponse.get_payload response true ;;
    Ok (VDict payload)
  else
    is_invocation <-
      InvocationRequest.is_invocation_request event VNone true ;;
    if is_invocation then
      request <- InvocationRequest.load_from_payload event true ;;
      f (InvocationRequest.payload request) context
    else f (VDict event) context.

End AwsLambda.

(** ** aws/apigateway_proxy.py *)

Module ApiGatewayProxy.

Inductive EventMode : Type := Body | Headers.

(** [event.get(key)] *)
Definition event_get (event : dict) (key : string) : pyval :=
  match dict_get event (str key) with
  | Some v => v
  | None => VNone
  end.

(** [event[key]] *)
Definition event_item (event : dict) (key : string) : outcome pyval :=
  match dict_get event (str key) with
  | Some v => Return v
  | None => Throw KeyError
  end.

(** [json.loads(x)]: a string is decoded, with the scope of [Json.decode];
    any other value of the model is refused with [TypeError]. *)
Definition json_loads (x : pyval) : outcome pyval :=
  match x with
  | VStr s =>
      match Json.decode s with
      | Some v => Return v
      | None => Throw JSONDecodeError
      end
  | _ => Throw (Std TypeError)
  end.

(** [try: body except handled: fallback] *)
Definition try_except {A : Type} (body : outcome A) (handled : pyexn -> bool)
    (fallback : A) : outcome A :=
  match body with
  | Return a => Return a
  | Throw e => if handled e then Return fallback else Throw e
  end.

Definition isJSONDecodeError (e : pyexn) : bool :=
  match e with JSONDecodeError => true | _ => false end.

(** [except ValueError] and [except (ValueError, json.JSONDecodeError)] *)
Definition isValueError (e : pyexn) : bool :=
  match e with
  | Std ValueError | JSONDecodeError => true
  | _ => false
  end.

Definition is_schema_request (event : dict) (mode : EventMode)
  : outcome bool :=
  match mode with
  | Headers =>
      match event_get event "headers" with
      | VDict headers => Return (SchemaRequest.is_schema_request headers)
      | _ => Return false
      end
  | Body =>
      if negb (truthy (event_get event "body")) then Return false
      else
        try_except
          (body <~ event_item event "body" ;;
           payload <~ json_loads body ;;
           match payload with
           | VDict payload => Return (SchemaRequest.is_schema_request payload)
           | _ => Return false
           end)
          isJSONDecodeError false
  end.

(** [SchemaRequest.load] on any value: a value that is not a mapping has
    no [items]. *)
Definition schema_load_value (data : pyval) : outcome SchemaRequest.t :=
  match data with
  | VDict d => lift (SchemaRequest.load d)
  | _ => Throw AttributeError
  end.

Definition load_schema_request (event : dict) (mode : EventMode)
  : outcome (option SchemaRequest.t) :=
  match mode with
  | Headers =>
      try_except
        (r <~ schema_load_value
                (match dict_get event (str "headers") with
                 | Some v => v
                 | None => VDict []
                 end) ;;
         Return (Some r))
        isValueError None
  | Body =>
      if negb (truthy (event_get event "body")) then Return None
      else
        try_except
          (body <~ event_item event "body" ;;
           payload <~ json_loads body ;;
           match payload with
           | VDict payload =>
               r <~ lift (SchemaRequest.load payload) ;; Return (Some r)
           | _ => Return None
           end)
          isValueError None
  end.

(** The response mapping with its three keys, or two. *)
Definition schema_response (schema : pyval) (mode : EventMode)
    (instructions state : pyval) : outcome dict :=
  response <~ lift (SchemaResponse.make schema instructions state
                      VNone VNone) ;;
  match mode with
  | Headers =>
      headers <~ lift (SchemaResponse.get_headers response true) ;;
      Return [(str "statusCode", VInt 200);
              (str "headers", VDict headers);
              (str "body", VStr [])]
  | Body =>
      payload <~ lift (SchemaResponse.get_payload response true) ;;
      Return [(str "statusCode", VInt 200);
              (str "body", VStr (Json.dumps (VDict payload)))]
  end.

Definition is_invocation_request (event : dict) (mode : EventMode)
    (state : pyval) : outcome bool :=
  match mode with
  | Headers =>
      match event_get event "headers" with
      | VDict headers =>
          lift (InvocationRequest.is_invocation_request headers state true)
      | _ => Return false
      end
  | Body =>
      try_except
        (body <~ event_item event "body" ;;
         payload <~ json_loads body ;;
         match payload with
         | VDict payload =>
             lift (InvocationRequest.is_invocation_request payload state true)
         | _ => Return false
         end)
        isValueError false
  end.

Definition load_invoke_request (event : dict) (mode : EventMode)
  : outcome (option InvocationRequest.t) :=
  match mode with
  | Headers =>
      match event_get event "headers" with
      | VDict headers =>
          r <~ lift (InvocationRequest.load_from_headers headers
                       (event_get event "body") false) ;;
          Return (Some r)
      | _ => Return None
      end
  | Body =>
      try_except
        (body <~ event_item event "body" ;;
         payload <~ json_loads body ;;
         match payload with
         | VDict _ =>
             r <~ lift (InvocationRequest.load_from_payload event true) ;;
             Return (Some r)
         | _ => Return None
         end)
        isValueError None
  end.

Definition error_response (error_message : pyval) (mode : EventMode)
    (schema state : pyval) : outcome dict :=
  response <~ lift (ErrorResponse.make error_message schema state
                      VNone VNone) ;;
  match mode with
  | Headers =>
      headers <~ lift (ErrorResponse.get_headers response true) ;;
      Return [(str "statusCode", VInt 400);
              (str "headers", VDict headers);
              (str "body", VStr [])]
  | Body =>
      payload <~ lift (ErrorResponse.get_payload response true) ;;
      Return [(str "statusCode", VInt 400);
              (str "body", VStr (Json.dumps (VDict payload)))]
  end.

(** The handler that [api_concierge_handler(schema, mode, instructions)(f)]
    returns, applied to an event. *)
Definition api_concierge_handler (schema : pyval) (mode : EventMode)
    (instructions : pyval) (f : dict -> outcome pyval) (event : dict)
  : outcome pyval :=
  is_schema <~ is_schema_request event mode ;;
  if is_schema then
    response <~ lift (SchemaResponse.make schema instructions VNone
                        VNone VNone) ;;
    match mode with
    | Headers =>
        headers <~ lift (SchemaResponse.get_headers response true) ;;
        Return (VDict [(str "statusCode", VInt 200);
                       (str "headers", VDict headers);
                       (str "body", VStr [])])
    | Body =>
        payload <~ lift (SchemaResponse.get_payload response true) ;;
        Return (VDict [(str "statusCode", VInt 200);
                       (str "body", VStr (Json.dumps (VDict payload)))])
    end
  else f event.

End ApiGatewayProxy.

(** ** Checks on emitted mappings *)

(** A character of the URL-safe base64 alphabet, or the pad. *)
Definition urlsafe_char (c : N) : bool :=
  ((65 <=? c)%N && (c <=? 90)%N)
  || ((97 <=? c)%N && (c <=? 122)%N)
  || ((48 <=? c)%N && (c <=? 57)%N)
  || (c =? 45)%N || (c =? 95)%N || (c =? 61)%N.

(** The keys of a response: pairwise distinct, each one starting with the
    prefix, none the request field, and the path only next to the base. *)
Definition response_keys (m : dict) : bool :=
  nodupb (keys m)
  && forallb (fun k => startswith k FIELD_PREFIX
                       && negb (field_is k REQUEST_FIELD)) (keys m)
  && implb (existsb (pystr_eqb PATH_FIELD) (keys m))
           (existsb (pystr_eqb BASE_FIELD) (keys m)).

(** * Properties *)

(** ** Generic facts *)

Lemma forall_from_spec (count : nat) (P : N -> bool) :
  forall start, forall_from start count P = true ->
  forall i, (start <= i < start + N.of_nat count)%N -> P i = true.
Proof.
  induction count as [|k IH]; intros start H i Hi.
  - lia.
  - cbn [forall_from] in H. apply andb_true_iff in H as [Hk Hrest].
    destruct (N.eq_dec i start) as [->|Hne]; [exact Hk|].
    apply (IH _ Hrest). lia.
Qed.

Lemma forall_below_spec (n : N) (P : N -> bool) :
  forall_below n P = true -> forall i, (i < n)%N -> P i = true.
Proof.
  intros H i Hi. apply (forall_from_spec _ _ H). lia.
Qed.

Lemma pystr_eqb_refl (s : pystr) : pystr_eqb s s = true.
Proof.
  induction s as [|c s IH]; [reflexivity|].
  cbn. now rewrite N.eqb_refl, IH.
Qed.

Lemma pystr_eqb_eq (a b : pystr) : pystr_eqb a b = true <-> a = b.
Proof.
  split; [|intros ->; apply pystr_eqb_refl].
  revert b. induction a as [|x a IH]; intros [|y b] H; cbn in H;
    try discriminate; [reflexivity|].
  apply andb_true_iff in H as [Hxy Hab].
  apply N.eqb_eq in Hxy. now rewrite Hxy, (IH b Hab).
Qed.

Lemma pystr_eqb_neq (a b : pystr) : pystr_eqb a b = false <-> a <> b.
Proof.
  rewrite <- pystr_eqb_eq. destruct (pystr_eqb a b); intuition congruence.
Qed.

Lemma py_eq_str (v : pyval) (s : pystr) :
  py_eq v (VStr s) = true <-> v = VStr s.
Proof.
  destruct v; cbn; try (split; [discriminate | intros H; discriminate H]).
  rewrite pystr_eqb_eq. split; congruence.
Qed.

(** ** base64 round trip *)

Module Base64Facts.
Import Base64.
Local Open Scope N_scope.

Lemma alphabet_roundtrip (i : N) :
  i < 64 ->
  (urlsafe i =? PAD) = false /\ table_a2b (urlsafe i) = Some i /\
  (urlsafe_encode_translation (table_b2a i) <? 128) = true.
Proof.
  intros Hi.
  pose (P := fun i =>
    negb (urlsafe i =? PAD)
    && match table_a2b (urlsafe i) with Some j => j =? i | None => false end
    && (urlsafe_encode_translation (table_b2a i) <? 128)).
  assert (HP : P i = true).
  { apply (@forall_below_spec 64 P); [vm_compute; reflexivity | exact Hi]. }
  unfold P in HP.
  apply andb_true_iff in HP as [HP H3].
  apply andb_true_iff in HP as [H1 H2].
  apply negb_true_iff in H1.
  destruct (table_a2b (urlsafe i)) as [j|]; [|discriminate].
  apply N.eqb_eq in H2. subst j. auto.
Qed.

Lemma pad_ascii : (urlsafe_encode_translation PAD <? 128) = true.
Proof. reflexivity. Qed.

Lemma pad_translated :
  urlsafe_decode_translation (urlsafe_encode_translation PAD) = PAD.
Proof. reflexivity. Qed.

(** One decoding step on a character of the alphabet. *)
Lemma a2b_loop_data (i : N) (rest : list N) (quad_pos leftchar pads : N) :
  i < 64 ->
  a2b_loop (urlsafe i :: rest) quad_pos leftchar pads =
  if quad_pos =? 0 then a2b_loop rest 1 i 0
  else if quad_pos =? 1 then
    option_map (cons (N.lor (N.shiftl leftchar 2) (N.shiftr i 4)))
      (a2b_loop rest 2 (N.land i 15) 0)
  else if quad_pos =? 2 then
    option_map (cons (N.lor (N.shiftl leftchar 4) (N.shiftr i 2)))
      (a2b_loop rest 3 (N.land i 3) 0)
  else
    option_map (cons (N.lor (N.shiftl leftchar 6) i)) (a2b_loop rest 0 0 0).
Proof.
  intros Hi. destruct (alphabet_roundtrip Hi) as (Hpad & Htab & _).
  cbn [a2b_loop]. now rewrite Hpad, Htab.
Qed.

(** The bit arithmetic of one group, checked on all its inputs: [x] are
    the two low bits of the first byte, [w] the four high bits of the
    second, and so on. *)
Lemma sextet_bounds (a : N) :
  a < 256 ->
  N.shiftr a 2 < 64 /\ N.land a 3 < 4 /\ N.shiftr a 4 < 16 /\
  N.land a 15 < 16 /\ N.shiftr a 6 < 4 /\ N.land a 63 < 64.
Proof.
  intros Ha.
  pose (P := fun a =>
    (N.shiftr a 2 <? 64) && (N.land a 3 <? 4) && (N.shiftr a 4 <? 16)
    && (N.land a 15 <? 16) && (N.shiftr a 6 <? 4) && (N.land a 63 <? 64)).
  assert (HP : P a = true).
  { apply (@forall_below_spec 256 P); [vm_compute; reflexivity | exact Ha]. }
  unfold P in HP.
  repeat (apply andb_true_iff in HP as [HP ?]).
  repeat match goal with H : (_ <? _) = true |- _ => apply N.ltb_lt in H end.
  auto 10.
Qed.

Lemma first_byte (a w : N) :
  a < 256 -> w < 16 ->
  let c1 := N.lor (N.shiftl (N.land a 3) 4) w in
  c1 < 64 /\
  N.lor (N.shiftl (N.shiftr a 2) 2) (N.shiftr c1 4) = a /\
  N.land c1 15 = w.
Proof.
  intros Ha Hw.
  pose (P := fun a => forall_below 16 (fun w =>
    let c1 := N.lor (N.shiftl (N.land a 3) 4) w in
    (c1 <? 64)
    && (N.lor (N.shiftl (N.shiftr a 2) 2) (N.shiftr c1 4) =? a)
    && (N.land c1 15 =? w))).
  assert (HP : P a = true).
  { apply (@forall_below_spec 256 P); [vm_compute; reflexivity | exact Ha]. }
  unfold P in HP. apply (fun H => @forall_below_spec _ _ H w Hw) in HP.
  cbv zeta in HP |- *.
  apply andb_true_iff in HP as [HP H3].
  apply andb_true_iff in HP as [H1 H2].
  apply N.ltb_lt in H1. apply N.eqb_eq in H2. apply N.eqb_eq in H3. auto.
Qed.

Lemma second_byte (b y : N) :
  b < 256 -> y < 4 ->
  let c2 := N.lor (N.shiftl (N.land b 15) 2) y in
  c2 < 64 /\
  N.lor (N.shiftl (N.shiftr b 4) 4) (N.shiftr c2 2) = b /\
  N.land c2 3 = y.
Proof.
  intros Hb Hy.
  pose (P := fun b => forall_below 4 (fun y =>
    let c2 := N.lor (N.shiftl (N.land b 15) 2) y in
    (c2 <? 64)
    && (N.lor (N.shiftl (N.shiftr b 4) 4) (N.shiftr c2 2) =? b)
    && (N.land c2 3 =? y))).
  assert (HP : P b = true).
  { apply (@forall_below_spec 256 P); [vm_compute; reflexivity | exact Hb]. }
  unfold P in HP. apply (fun H => @forall_below_spec _ _ H y Hy) in HP.
  cbv zeta in HP |- *.
  apply andb_true_iff in HP as [HP H3].
  apply andb_true_iff in HP as [H1 H2].
  apply N.ltb_lt in H1. apply N.eqb_eq in H2. apply N.eqb_eq in H3. auto.
Qed.

Lemma third_byte (c : N) :
  c < 256 -> N.lor (N.shiftl (N.shiftr c 6) 6) (N.land c 63) = c.
Proof.
  intros Hc.
  pose (P := fun c =>
    N.lor (N.shiftl (N.shiftr c 6) 6) (N.land c 63) =? c).
  assert (HP : P c = true).
  { apply (@forall_below_spec 256 P); [vm_compute; reflexivity | exact Hc]. }
  now apply N.eqb_eq in HP.
Qed.

Lemma list_ind3 (A : Type) (P : list A -> Prop) :
  P [] -> (forall a, P [a]) -> (forall a b, P [a; b]) ->
  (forall a b c rest, P rest -> P (a :: b :: c :: rest)) ->
  forall l, P l.
Proof.
  intros H0 H1 H2 H3.
  fix IH 1.
  intros [|a [|b [|c rest]]];
    [apply H0 | apply H1 | apply H2 | apply H3, IH].
Qed.

Lemma a2b_b2a (bs : list N) :
  Forall byte bs ->
  a2b_loop (map urlsafe_decode_translation (urlsafe_b64encode bs)) 0 0 0
  = Some bs.
Proof.
  unfold urlsafe_b64encode.
  induction bs as [|a|a b|a b c rest IH] using list_ind3; intros Hbs.
  - reflexivity.
  - inversion_clear Hbs as [|? ? Ha _].
    destruct (sextet_bounds Ha) as (B1 & B2 & _).
    assert (Hw : 0 < 16) by lia.
    destruct (first_byte Ha Hw) as (C1 & E1 & E2).
    cbv zeta in C1, E1, E2. rewrite N.lor_0_r in C1, E1, E2.
    cbn [b2a_base64 map]. rewrite pad_translated.
    fold (urlsafe (N.shiftr a 2)).
    fold (urlsafe (N.shiftl (N.land a 3) 4)).
    rewrite (a2b_loop_data _ _ _ _ B1). cbn [N.eqb].
    rewrite (a2b_loop_data _ _ _ _ C1). cbn [N.eqb Pos.eqb].
    rewrite E1. reflexivity.
  - inversion_clear Hbs as [|? ? Ha Hbs']. inversion_clear Hbs' as [|? ? Hb _].
    destruct (sextet_bounds Ha) as (A1 & _).
    destruct (sextet_bounds Hb) as (_ & _ & B3 & _).
    destruct (first_byte Ha B3) as (C1 & E1 & E2).
    assert (Hy : 0 < 4) by lia.
    destruct (second_byte Hb Hy) as (C2 & E3 & E4).
    cbv zeta in C1, E1, E2, C2, E3, E4. rewrite N.lor_0_r in C2, E3, E4.
    cbn [b2a_base64 map]. rewrite pad_translated.
    fold (urlsafe (N.shiftr a 2)).
    fold (urlsafe (N.lor (N.shiftl (N.land a 3) 4) (N.shiftr b 4))).
    fold (urlsafe (N.shiftl (N.land b 15) 2)).
    rewrite (a2b_loop_data _ _ _ _ A1). cbn [N.eqb].
    rewrite (a2b_loop_data _ _ _ _ C1). cbn [N.eqb Pos.eqb].
    rewrite (a2b_loop_data _ _ _ _ C2). cbn [N.eqb Pos.eqb].
    rewrite E1, E2, E3. reflexivity.
  - inversion_clear Hbs as [|? ? Ha Hbs']. inversion_clear Hbs' as [|? ? Hb Hbs''].
    inversion_clear Hbs'' as [|? ? Hc Hrest].
    destruct (sextet_bounds Ha) as (A1 & _).
    destruct (sextet_bounds Hb) as (_ & _ & B3 & _).
    destruct (sextet_bounds Hc) as (_ & _ & _ & _ & C5 & C6).
    destruct (first_byte Ha B3) as (C1 & E1 & E2).
    destruct (second_byte Hb C5) as (C2 & E3 & E4).
    cbv zeta in C1, E1, E2, C2, E3, E4.
    cbn [b2a_base64 map].
    fold (urlsafe (N.shiftr a 2)).
    fold (urlsafe (N.lor (N.shiftl (N.land a 3) 4) (N.shiftr b 4))).
    fold (urlsafe (N.lor (N.shiftl (N.land b 15) 2) (N.shiftr c 6))).
    fold (urlsafe (N.land c 63)).
    rewrite (a2b_loop_data _ _ _ _ A1). cbn [N.eqb].
    rewrite (a2b_loop_data _ _ _ _ C1). cbn [N.eqb Pos.eqb].
    rewrite (a2b_loop_data _ _ _ _ C2). cbn [N.eqb Pos.eqb].
    rewrite (a2b_loop_data _ _ _ _ C6). cbn [N.eqb Pos.eqb].
    rewrite E1, E2, E3, E4, (third_byte Hc), (IH Hrest). reflexivity.
Qed.

End Base64Facts.

(** ** json round trip *)

Module JsonFacts.
Import Json.
Local Open Scope N_scope.

(** *** Strings *)

Lemma hex_roundtrip (n : N) (rest : list N) :
  n < 65536 ->
  decode_uXXXX (skipn 2 (u_escape n) ++ rest) = Some (n, rest).
Proof.
  intros Hn.
  pose (P := fun n =>
    match decode_uXXXX (skipn 2 (u_escape n)) with
    | Some (m, []) => m =? n
    | _ => false
    end).
  assert (HP : P n = true).
  { apply (@forall_below_spec 65536 P); [vm_compute; reflexivity | exact Hn]. }
  unfold P in HP. cbn [u_escape skipn app decode_uXXXX] in HP |- *.
  destruct (hex_val (hex_digit (n / 4096 mod 16))); [|discriminate].
  destruct (hex_val (hex_digit (n / 256 mod 16))); [|discriminate].
  destruct (hex_val (hex_digit (n / 16 mod 16))); [|discriminate].
  destruct (hex_val (hex_digit (n mod 16))); [|discriminate].
  apply N.eqb_eq in HP. now rewrite HP.
Qed.

Lemma lor_shiftl_low (a b k : N) :
  b < 2 ^ k -> N.lor (N.shiftl a k) b = a * 2 ^ k + b.
Proof.
  intros Hb.
  assert (Hland : N.land (N.shiftl a k) b = 0).
  { apply N.bits_inj_0. intros i. rewrite N.land_spec.
    destruct (N.lt_ge_cases i k) as [Hi|Hi].
    - now rewrite N.shiftl_spec_low.
    - rewrite <- (N.mod_small b (2 ^ k)) by exact Hb.
      rewrite N.mod_pow2_bits_high by exact Hi. apply andb_false_r. }
  rewrite <- N.lxor_lor, <- N.add_nocarry_lxor by exact Hland.
  now rewrite N.shiftl_mul_pow2.
Qed.

Lemma surrogate_low (x : N) :
  x < 1024 ->
  N.lor 55296 (N.land x 1023) = 55296 + x /\ N.lor 56320 x = 56320 + x.
Proof.
  intros Hx.
  pose (P := fun x =>
    (N.lor 55296 (N.land x 1023) =? 55296 + x) && (N.lor 56320 x =? 56320 + x)).
  assert (HP : P x = true).
  { apply (@forall_below_spec 1024 P); [vm_compute; reflexivity | exact Hx]. }
  unfold P in HP. apply andb_true_iff in HP as [H1 H2].
  apply N.eqb_eq in H1. apply N.eqb_eq in H2. auto.
Qed.

(** The surrogate pair of a code point above the basic plane, and the
    decoder's recombination. *)
Lemma surrogate_pair (c : N) :
  65536 <= c < 1114112 ->
  let n := c - 65536 in
  let s1 := N.lor 55296 (N.land (N.shiftr n 10) 1023) in
  let s2 := N.lor 56320 (N.land n 1023) in
  55296 <= s1 <= 56319 /\ 56320 <= s2 <= 57343 /\
  65536 + N.lor (N.shiftl (s1 - 55296) 10) (s2 - 56320) = c.
Proof.
  intros Hc n s1 s2.
  assert (Hhi : N.shiftr n 10 < 1024).
  { rewrite N.shiftr_div_pow2. change (2 ^ 10) with 1024.
    apply N.Div0.div_lt_upper_bound. subst n. lia. }
  assert (Hlo : N.land n 1023 = n mod 1024).
  { change 1023 with (N.ones 10). now rewrite N.land_ones. }
  assert (Hlo' : n mod 1024 < 1024) by (apply N.mod_lt; lia).
  destruct (surrogate_low Hhi) as [E1 _].
  destruct (surrogate_low Hlo') as [_ E2].
  subst s1 s2. rewrite E1, Hlo, E2.
  replace (55296 + N.shiftr n 10 - 55296) with (N.shiftr n 10) by lia.
  replace (56320 + n mod 1024 - 56320) with (n mod 1024) by lia.
  rewrite lor_shiftl_low by (change (2 ^ 10) with 1024; exact Hlo').
  rewrite N.shiftr_div_pow2. change (2 ^ 10) with 1024.
  pose proof (N.div_mod n 1024 ltac:(lia)) as Hdm.
  repeat split; try lia.
Qed.

Lemma scanstring_u (f : nat) (s : list N) :
  scanstring_fuel (S f) (92 :: 117 :: s) =
  match decode_uXXXX s with
  | None => None
  | Some (uni, rest1) =>
      if (55296 <=? uni) && (uni <=? 56319) then
        match rest1 with
        | b1 :: b2 :: rest2 =>
            if (b1 =? 92) && (b2 =? 117) then
              match decode_uXXXX rest2 with
              | None => None
              | Some (uni2, rest3) =>
                  if (56320 <=? uni2) && (uni2 <=? 57343)
                  then
                    cons_char
                      (65536 +
                       N.lor (N.shiftl (uni - 55296) 10) (uni2 - 56320))
                      (scanstring_fuel f rest3)
                  else cons_char uni (scanstring_fuel f rest1)
              end
            else cons_char uni (scanstring_fuel f rest1)
        | _ => cons_char uni (scanstring_fuel f rest1)
        end
      else cons_char uni (scanstring_fuel f rest1)
  end.
Proof. reflexivity. Qed.

Lemma decode_u_escape (n : N) (rest : list N) :
  n < 65536 ->
  decode_uXXXX (hex_digit (n / 4096 mod 16) :: hex_digit (n / 256 mod 16)
                :: hex_digit (n / 16 mod 16) :: hex_digit (n mod 16)
                :: rest)
  = Some (n, rest).
Proof. intros Hn. exact (hex_roundtrip rest Hn). Qed.

Lemma scanstring_u_escape (f : nat) (c : N) (s : list N) :
  c < 65536 -> scalar_value c ->
  scanstring_fuel (S f) (u_escape c ++ s)
  = cons_char c (scanstring_fuel f s).
Proof.
  intros Hlt Hc. cbn [u_escape app].
  rewrite scanstring_u, (decode_u_escape _ Hlt).
  assert (H : (55296 <=? c) && (c <=? 56319) = false).
  { apply andb_false_iff. destruct Hc as [Hc|[Hc _]].
    - left. apply N.leb_gt. exact Hc.
    - right. apply N.leb_gt. lia. }
  now rewrite H.
Qed.

Lemma scanstring_pair (f : nat) (c : N) (s : list N) :
  65536 <= c < 1114112 ->
  let n := c - 65536 in
  scanstring_fuel (S f)
    ((u_escape (N.lor 55296 (N.land (N.shiftr n 10) 1023))
      ++ u_escape (N.lor 56320 (N.land n 1023))) ++ s)
  = cons_char c (scanstring_fuel f s).
Proof.
  intros Hc n. destruct (surrogate_pair Hc) as (R1 & R2 & E).
  fold n in R1, R2, E.
  set (s1 := N.lor 55296 (N.land (N.shiftr n 10) 1023)) in *.
  set (s2 := N.lor 56320 (N.land n 1023)) in *.
  cbn [u_escape app].
  rewrite scanstring_u, decode_u_escape by lia.
  assert (H1 : (55296 <=? s1) && (s1 <=? 56319) = true).
  { apply andb_true_iff. split; apply N.leb_le; lia. }
  rewrite H1. cbn [N.eqb Pos.eqb andb].
  rewrite decode_u_escape by lia.
  assert (H2 : (56320 <=? s2) && (s2 <=? 57343) = true).
  { apply andb_true_iff. split; apply N.leb_le; lia. }
  now rewrite H2, E.
Qed.

Lemma scanstring_plain (f : nat) (c : N) (s : list N) :
  c <> 34 -> c <> 92 -> 32 <= c ->
  scanstring_fuel (S f) (c :: s) = cons_char c (scanstring_fuel f s).
Proof.
  intros H1 H2 H3. cbn [scanstring_fuel].
  apply N.eqb_neq in H1, H2. rewrite H1, H2.
  assert (H : (c <? 32) = false) by (apply N.ltb_ge; exact H3).
  now rewrite H.
Qed.

(** One character: the decoder reads back what the encoder wrote. *)
Lemma scanstring_escape_char (f : nat) (c : N) (s : list N) :
  scalar_value c ->
  scanstring_fuel (S f) (escape_char c ++ s)
  = cons_char c (scanstring_fuel f s).
Proof.
  intros Hc. unfold escape_char.
  destruct (N.eqb_spec c 34) as [->|N1]; [reflexivity|].
  destruct (N.eqb_spec c 92) as [->|N2]; [reflexivity|].
  destruct (N.eqb_spec c 10) as [->|N3]; [reflexivity|].
  destruct (N.eqb_spec c 13) as [->|N4]; [reflexivity|].
  destruct (N.eqb_spec c 9) as [->|N5]; [reflexivity|].
  destruct (N.eqb_spec c 8) as [->|N6]; [reflexivity|].
  destruct (N.eqb_spec c 12) as [->|N7]; [reflexivity|].
  destruct (N.leb_spec 32 c) as [L1|L1]; cbn [andb].
  - destruct (N.leb_spec c 126) as [L2|L2].
    + now apply scanstring_plain.
    + destruct (N.ltb_spec c 65536) as [L3|L3].
      * now apply scanstring_u_escape.
      * apply scanstring_pair. destruct Hc as [Hc|Hc]; lia.
  - assert (L3 : c < 65536) by lia.
    apply N.ltb_lt in L3 as L3'. rewrite L3'.
    now apply scanstring_u_escape.
Qed.

Lemma scanstring_fuel_roundtrip (s : pystr) :
  str_wf s ->
  forall (f : nat) (rest : list N),
    (length (flat_map escape_char s) < f)%nat ->
    scanstring_fuel f (flat_map escape_char s ++ 34 :: rest)
    = Some (s, rest).
Proof.
  induction 1 as [|c s Hc Hs IH]; intros f rest Hf.
  - destruct f; [inversion Hf | reflexivity].
  - cbn [flat_map] in Hf |- *. rewrite length_app in Hf.
    destruct f as [|f]; [inversion Hf|].
    rewrite <- app_assoc, (scanstring_escape_char _ _ Hc).
    assert (Hpos : (0 < length (escape_char c))%nat).
    { unfold escape_char.
      repeat match goal with
             | |- context [if ?b then _ else _] => destruct b
             end; cbn; lia. }
    rewrite IH by lia. reflexivity.
Qed.

Lemma scanstring_roundtrip (s : pystr) (rest : list N) :
  str_wf s ->
  scanstring (flat_map escape_char s ++ 34 :: rest) = Some (s, rest).
Proof.
  intros Hs. unfold scanstring. apply scanstring_fuel_roundtrip; [exact Hs|].
  rewrite length_app. cbn [length]. lia.
Qed.

(** *** Integers *)

Lemma digits_fuel_value (fuel : nat) :
  forall n acc, n < 2 ^ N.of_nat fuel ->
  fold_left digit_step (digits_fuel fuel n acc) 0 = fold_left digit_step acc n.
Proof.
  induction fuel as [|f IH]; intros n acc Hn.
  - cbn in Hn. assert (n = 0) by lia. subst n. reflexivity.
  - cbn [digits_fuel].
    assert (Hdiv : n / 10 < 2 ^ N.of_nat f).
    { apply N.Div0.div_lt_upper_bound.
      rewrite Nat2N.inj_succ, N.pow_succ_r' in Hn. lia. }
    pose proof (N.div_mod n 10 ltac:(lia)) as Hdm.
    pose proof (N.mod_lt n 10 ltac:(lia)) as Hm.
    destruct (N.eqb_spec (n / 10) 0) as [E|E].
    + cbn [fold_left].
      replace (digit_step 0 (48 + n mod 10)) with n; [reflexivity|].
      unfold digit_step. remember (n / 10) as q. remember (n mod 10) as r. lia.
    + rewrite (IH _ _ Hdiv). cbn [fold_left].
      replace (digit_step (n / 10) (48 + n mod 10)) with n; [reflexivity|].
      unfold digit_step. remember (n / 10) as q. remember (n mod 10) as r. lia.
Qed.

Lemma digits_fuel_digits (fuel : nat) :
  forall n acc, Forall (fun c => is_digit c = true) acc ->
  Forall (fun c => is_digit c = true) (digits_fuel fuel n acc).
Proof.
  induction fuel as [|f IH]; intros n acc Hacc; [exact Hacc|].
  cbn [digits_fuel].
  assert (Hd : Forall (fun c => is_digit c = true) ((48 + n mod 10) :: acc)).
  { constructor; [|exact Hacc].
    pose proof (N.mod_lt n 10 ltac:(lia)).
    remember (n mod 10) as r.
    unfold is_digit. apply andb_true_iff. split; apply N.leb_le; lia. }
  destruct (n / 10 =? 0); [exact Hd | now apply IH].
Qed.

Lemma digits_fuel_head (fuel : nat) :
  forall n acc, n < 2 ^ N.of_nat fuel -> 0 < n ->
  exists d ds, digits_fuel fuel n acc = d :: ds /\ 49 <= d <= 57.
Proof.
  induction fuel as [|f IH]; intros n acc Hn Hpos.
  - cbn in Hn. lia.
  - cbn [digits_fuel].
    assert (Hdiv : n / 10 < 2 ^ N.of_nat f).
    { apply N.Div0.div_lt_upper_bound.
      rewrite Nat2N.inj_succ, N.pow_succ_r' in Hn. lia. }
    pose proof (N.div_mod n 10 ltac:(lia)) as Hdm.
    pose proof (N.mod_lt n 10 ltac:(lia)) as Hm.
    destruct (N.eqb_spec (n / 10) 0) as [E|E].
    + exists (48 + n mod 10), acc. split; [reflexivity|].
      remember (n / 10) as q. remember (n mod 10) as r. lia.
    + apply IH; [exact Hdiv | lia].
Qed.

Lemma repr_N_fuel (n : N) : n < 2 ^ N.of_nat (S (N.to_nat (N.log2 n))).
Proof.
  rewrite Nat2N.inj_succ, N2Nat.id.
  destruct (N.eq_dec n 0) as [->|Hn]; [reflexivity|].
  apply N.log2_spec. lia.
Qed.

Lemma repr_N_spec (n : N) :
  int_of_digits (repr_N n) = n /\
  Forall (fun c => is_digit c = true) (repr_N n) /\
  (n = 0 -> repr_N n = [48]) /\
  (0 < n -> exists d ds, repr_N n = d :: ds /\ 49 <= d <= 57).
Proof.
  unfold repr_N, int_of_digits. repeat split.
  - now rewrite digits_fuel_value by apply repr_N_fuel.
  - apply digits_fuel_digits. constructor.
  - intros ->. reflexivity.
  - intros Hn. now apply digits_fuel_head; [apply repr_N_fuel|].
Qed.

Lemma span_digits_app (ds rest : list N) :
  Forall (fun c => is_digit c = true) ds ->
  match rest with [] => True | c :: _ => is_digit c = false end ->
  span_digits (ds ++ rest) = (ds, rest).
Proof.
  intros Hds Hrest. induction Hds as [|d ds Hd _ IH].
  - destruct rest as [|c r]; [reflexivity|]. cbn. now rewrite Hrest.
  - cbn. now rewrite Hd, IH.
Qed.

Lemma match_integer_repr (z : Z) (rest : list N) :
  match rest with [] => True | c :: _ => is_digit c = false end ->
  match_integer (repr_int z ++ rest) = Some (z, rest).
Proof.
  intros Hrest. unfold repr_int.
  destruct (Z.ltb_spec z 0) as [Hz|Hz].
  - destruct (repr_N_spec (Z.abs_N z)) as (Hv & Hd & _ & Hh).
    destruct Hh as (d & ds & E & Hr); [lia|].
    rewrite E in *. inversion_clear Hd as [|? ? Hd1 Hd2].
    unfold match_integer. cbn [app N.eqb Pos.eqb].
    destruct (N.eqb_spec d 48) as [->|_]; [lia|].
    rewrite Hd1, (@span_digits_app _ _ Hd2 Hrest), Hv. do 2 f_equal. lia.
  - destruct (Z.eq_dec z 0) as [->|Hnz].
    + reflexivity.
    + destruct (repr_N_spec (Z.to_N z)) as (Hv & Hd & _ & Hh).
      destruct Hh as (d & ds & E & Hr); [lia|].
      rewrite E in *. inversion_clear Hd as [|? ? Hd1 Hd2].
      unfold match_integer. cbn [app].
      destruct (N.eqb_spec d 45) as [->|_]; [lia|].
      destruct (N.eqb_spec d 48) as [->|_]; [lia|].
      rewrite Hd1, (@span_digits_app _ _ Hd2 Hrest), Hv. do 2 f_equal. lia.
Qed.

(** *** Values *)

Lemma dumps_list (l : list pyval) : dumps (VList l) = 91 :: dumps_elems l ++ [93].
Proof. reflexivity. Qed.

Lemma dumps_dict (d : list (pystr * pyval)) :
  dumps (VDict d) = 123 :: dumps_pairs d ++ [125].
Proof. reflexivity. Qed.

Lemma pyval_ind' (P : pyval -> Prop) :
  P VNone -> (forall b, P (VBool b)) -> (forall z, P (VInt z)) ->
  (forall s, P (VStr s)) ->
  (forall l, Forall P l -> P (VList l)) ->
  (forall d, Forall (fun kv => P (snd kv)) d -> P (VDict d)) ->
  forall v, P v.
Proof.
  intros HN HB HI HS HL HD.
  fix IH 1. intros [ |b|z|s|l|d].
  - exact HN.
  - apply HB.
  - apply HI.
  - apply HS.
  - apply HL. induction l as [|x l IHl]; constructor; [apply IH | exact IHl].
  - apply HD. induction d as [|[k x] d IHd]; constructor; [apply IH | exact IHd].
Qed.

Lemma representable_list (l : list pyval) :
  json_representable (VList l) <-> Forall json_representable l.
Proof.
  induction l as [|x l IH].
  - split; [constructor | intros _; exact I].
  - change (json_representable (VList (x :: l)))
      with (json_representable x /\ json_representable (VList l)).
    rewrite IH. split; [intros [H1 H2]; now constructor | now inversion 1].
Qed.

Lemma representable_dict (d : list (pystr * pyval)) :
  json_representable (VDict d) <->
  NoDup (map fst d) /\
  Forall (fun kv => str_wf (fst kv) /\ json_representable (snd kv)) d.
Proof.
  change (json_representable (VDict d)) with
    (NoDup (map fst d) /\
     (fix all (d : list (pystr * pyval)) : Prop :=
        match d with
        | [] => True
        | (k, x) :: xs => str_wf k /\ json_representable x /\ all xs
        end) d).
  apply and_iff_compat_l.
  induction d as [|[k x] d IH].
  - split; [constructor | intros _; exact I].
  - rewrite IH. split.
    + intros (H1 & H2 & H3). now constructor.
    + inversion 1 as [|? ? [H1 H2] H3]. auto.
Qed.

Lemma value_start_skip (c : N) (s : list N) :
  value_start c = true -> skip_ws (c :: s) = c :: s.
Proof.
  unfold value_start. intros H.
  apply andb_true_iff in H as [H _]. apply andb_true_iff in H as [H _].
  apply negb_true_iff in H. cbn [skip_ws]. now rewrite H.
Qed.

Lemma repr_int_head (z : Z) :
  exists c s, repr_int z = c :: s /\ (c = 45 \/ 48 <= c <= 57).
Proof.
  unfold repr_int. destruct (z <? 0)%Z.
  - eauto.
  - destruct (repr_N_spec (Z.to_N z)) as (_ & _ & H0 & Hpos).
    destruct (N.eq_dec (Z.to_N z) 0) as [E|E].
    + rewrite (H0 E). exists 48, []. split; [reflexivity | lia].
    + destruct Hpos as (d & ds & Hd & Hr); [lia|].
      rewrite Hd. exists d, ds. split; [reflexivity | lia].
Qed.

Lemma dumps_start (v : pyval) :
  exists c s, dumps v = c :: s /\ value_start c = true.
Proof.
  destruct v as [ |[|]|z|s|l|d].
  - exists 110, [117; 108; 108]. split; reflexivity.
  - exists 116, [114; 117; 101]. split; reflexivity.
  - exists 102, [97; 108; 115; 101]. split; reflexivity.
  - destruct (repr_int_head z) as (c & s & E & Hc). exists c, s.
    split; [exact E|]. unfold value_start, is_ws.
    destruct Hc as [->|Hc]; [reflexivity|].
    repeat match goal with
           | |- context [?a =? ?b] =>
               destruct (N.eqb_spec a b); [lia|]
           end.
    reflexivity.
  - eexists _, _. split; [reflexivity|reflexivity].
  - eexists _, _. split; [reflexivity|reflexivity].
  - eexists _, _. split; [reflexivity|reflexivity].
Qed.

Lemma skip_ws_dumps (v : pyval) (s : list N) :
  skip_ws (dumps v ++ s) = dumps v ++ s.
Proof.
  destruct (dumps_start v) as (c & t & E & Hc). rewrite E.
  now apply value_start_skip.
Qed.

Lemma dumps_nonempty (v : pyval) : (0 < length (dumps v))%nat.
Proof.
  destruct (dumps_start v) as (c & t & E & _). rewrite E. cbn. lia.
Qed.

Lemma delimiter_not_number (rest : list N) :
  delimiter_next rest = true ->
  match rest with [] => True | c :: _ => is_digit c = false end /\
  has_frac rest = false /\ has_exp rest = false.
Proof.
  destruct rest as [|c r]; [auto|]. cbn [delimiter_next]. intros H.
  assert (Hc : c = 44 \/ c = 93 \/ c = 125).
  { apply orb_true_iff in H as [H|H]; [apply orb_true_iff in H as [H|H]|];
      apply N.eqb_eq in H; auto. }
  destruct Hc as [-> | [-> | ->]]; repeat split; destruct r; reflexivity.
Qed.

Lemma scan_once_number (f : nat) (c : N) (s : list N) :
  c = 45 \/ 48 <= c <= 57 ->
  scan_once (S f) (c :: s) =
  match match_integer (c :: s) with
  | Some (z, r) => if has_frac r || has_exp r then None else Some (VInt z, r)
  | None => None
  end.
Proof.
  intros Hc. cbn [scan_once].
  change (str "null") with [110; 117; 108; 108].
  change (str "true") with [116; 114; 117; 101].
  change (str "false") with [102; 97; 108; 115; 101].
  cbn [startswith].
  destruct (N.eqb_spec c 34); [lia|].
  destruct (N.eqb_spec c 123); [lia|].
  destruct (N.eqb_spec c 91); [lia|].
  destruct (N.eqb_spec c 110); [lia|].
  destruct (N.eqb_spec c 116); [lia|].
  destruct (N.eqb_spec c 102); [lia|].
  reflexivity.
Qed.

Lemma scan_once_int (f : nat) (z : Z) (rest : list N) :
  delimiter_next rest = true ->
  scan_once (S f) (repr_int z ++ rest) = Some (VInt z, rest).
Proof.
  intros Hrest.
  destruct (delimiter_not_number _ Hrest) as (H1 & H2 & H3).
  pose proof (match_integer_repr z _ H1) as Hm.
  destruct (repr_int_head z) as (c & s & E & Hc).
  rewrite E in *. cbn [app] in *.
  rewrite (scan_once_number _ _ Hc), Hm, H2, H3. reflexivity.
Qed.

Lemma parse_elems_unfold (f : nat) (s : list N) :
  parse_elems (S f) s =
  match scan_once f s with
  | None => None
  | Some (v, r) =>
      match skip_ws r with
      | [] => None
      | c :: r1 =>
          if c =? 93 then Some ([v], r1)
          else if c =? 44 then
            map_fst (cons v) (parse_elems f (skip_ws r1))
          else None
      end
  end.
Proof. reflexivity. Qed.

Lemma dumps_elems_cons (x : pyval) (xs : list pyval) :
  dumps_elems (x :: xs) =
  dumps x ++ match xs with [] => [] | _ => 44 :: 32 :: dumps_elems xs end.
Proof. reflexivity. Qed.

Lemma skip_ws_elems (l : list pyval) (s : list N) :
  l <> [] -> skip_ws (dumps_elems l ++ s) = dumps_elems l ++ s.
Proof.
  destruct l as [|x xs]; [congruence|]. intros _.
  rewrite dumps_elems_cons, <- app_assoc. apply skip_ws_dumps.
Qed.

Lemma parse_elems_dumps (l : list pyval) :
  Forall roundtrip_at l -> l <> [] ->
  forall (f : nat) (rest : list N),
    (length (dumps_elems l) + 1 < f)%nat ->
    parse_elems f (dumps_elems l ++ 93 :: rest) = Some (l, rest).
Proof.
  induction 1 as [|x xs Hx Hxs IH]; [congruence|]. intros _ f rest Hf.
  destruct f as [|f]; [lia|].
  rewrite dumps_elems_cons, length_app in Hf.
  rewrite parse_elems_unfold, dumps_elems_cons, <- app_assoc.
  pose proof (dumps_nonempty x) as Hpos.
  destruct xs as [|y ys].
  - cbn [app length] in *. rewrite Hx by (lia || reflexivity).
    reflexivity.
  - rewrite Hx; [|lia|reflexivity].
    cbn [app skip_ws is_ws N.eqb Pos.eqb orb].
    rewrite skip_ws_elems by discriminate.
    cbn [length] in Hf.
    rewrite IH; [reflexivity|discriminate|lia].
Qed.

Lemma parse_pairs_unfold (f : nat) (s : list N) :
  parse_pairs (S f) s =
  match scanstring s with
  | None => None
  | Some (key, r) =>
      match skip_ws r with
      | [] => None
      | c :: r1 =>
          if c =? 58 then
            match scan_once f (skip_ws r1) with
            | None => None
            | Some (v, r2) =>
                match skip_ws r2 with
                | [] => None
                | c2 :: r3 =>
                    if c2 =? 125 then Some ([(key, v)], r3)
                    else if c2 =? 44 then
                      match skip_ws r3 with
                      | [] => None
                      | c3 :: r4 =>
                          if c3 =? 34 then
                            map_fst (cons (key, v)) (parse_pairs f r4)
                          else None
                      end
                    else None
                end
            end
          else None
      end
  end.
Proof. reflexivity. Qed.

Lemma dumps_pairs_cons (k : pystr) (x : pyval) (xs : list (pystr * pyval)) :
  dumps_pairs ((k, x) :: xs) =
  encode_basestring_ascii k ++ 58 :: 32 :: dumps x
  ++ match xs with [] => [] | _ => 44 :: 32 :: dumps_pairs xs end.
Proof. reflexivity. Qed.

Lemma pairs_body (k : pystr) (x : pyval) (xs : list (pystr * pyval))
    (s : list N) :
  tl (dumps_pairs ((k, x) :: xs) ++ s) =
  flat_map escape_char k ++ 34 :: 58 :: 32 :: dumps x
  ++ match xs with [] => [] | _ => 44 :: 32 :: dumps_pairs xs end ++ s.
Proof.
  rewrite dumps_pairs_cons. unfold encode_basestring_ascii.
  cbn [app tl]. rewrite <- !app_assoc. cbn [app].
  now rewrite <- !app_assoc.
Qed.

Lemma pairs_head (k : pystr) (x : pyval) (xs : list (pystr * pyval))
    (s : list N) :
  dumps_pairs ((k, x) :: xs) ++ s = 34 :: tl (dumps_pairs ((k, x) :: xs) ++ s).
Proof. reflexivity. Qed.

Lemma parse_pairs_dumps (d : list (pystr * pyval)) :
  Forall (fun kv => str_wf (fst kv) /\ roundtrip_at (snd kv)) d -> d <> [] ->
  forall (f : nat) (rest : list N),
    (length (dumps_pairs d) + 1 < f)%nat ->
    parse_pairs f (tl (dumps_pairs d ++ 125 :: rest)) = Some (d, rest).
Proof.
  induction 1 as [|[k x] xs [Hk Hx] Hxs IH]; [congruence|].
  intros _ f rest Hf. cbn [fst snd] in Hk, Hx.
  destruct f as [|f]; [lia|].
  rewrite dumps_pairs_cons, !length_app in Hf. cbn [length] in Hf.
  rewrite length_app in Hf.
  rewrite parse_pairs_unfold, pairs_body, (scanstring_roundtrip _ Hk).
  cbn [skip_ws is_ws N.eqb Pos.eqb orb]. rewrite skip_ws_dumps.
  pose proof (dumps_nonempty x) as Hpos.
  destruct xs as [|[k' y] ys].
  - cbn [app length] in *. rewrite Hx by (lia || reflexivity).
    reflexivity.
  - rewrite Hx; [|lia|reflexivity].
    cbn [app]. rewrite (pairs_head k' y ys).
    cbn [skip_ws is_ws N.eqb Pos.eqb orb].
    cbn [length] in Hf.
    rewrite IH; [reflexivity|discriminate|lia].
Qed.

Lemma dict_set_fresh (d : dict) (k : pystr) (v : pyval) :
  ~ In k (map fst d) -> dict_set d k v = d ++ [(k, v)].
Proof.
  induction d as [|[k' v'] d IH]; intros Hk; [reflexivity|].
  cbn [dict_set app]. cbn [map fst In] in Hk.
  destruct (pystr_eqb k' k) eqn:E.
  - apply pystr_eqb_eq in E. tauto.
  - rewrite IH by tauto. reflexivity.
Qed.

Lemma dict_of_pairs_acc (d : list (pystr * pyval)) :
  forall acc, NoDup (map fst (acc ++ d)) ->
  fold_left (fun a kv => dict_set a (fst kv) (snd kv)) d acc = acc ++ d.
Proof.
  induction d as [|[k v] d IH]; intros acc Hnd.
  - now rewrite app_nil_r.
  - cbn [fold_left fst snd].
    rewrite dict_set_fresh.
    + rewrite IH; rewrite <- app_assoc; [reflexivity | exact Hnd].
    + rewrite map_app in Hnd. apply NoDup_remove_2 in Hnd.
      intros Hin. apply Hnd. apply in_or_app. now left.
Qed.

Lemma dict_of_pairs_nodup (d : list (pystr * pyval)) :
  NoDup (map fst d) -> dict_of_pairs d = d.
Proof. intros H. exact (dict_of_pairs_acc d [] H). Qed.

Lemma scan_once_dumps (v : pyval) : json_representable v -> roundtrip_at v.
Proof.
  induction v as [ |b|z|s|l IH|d IH] using pyval_ind';
    intros Hwf f rest Hf Hrest;
    (destruct f as [|f]; [inversion Hf|]).
  - reflexivity.
  - destruct b; reflexivity.
  - now apply scan_once_int.
  - change (dumps (VStr s)) with (34 :: flat_map escape_char s ++ [34]).
    cbn [app scan_once N.eqb Pos.eqb].
    rewrite <- app_assoc. cbn [app].
    now rewrite (scanstring_roundtrip _ Hwf).
  - apply representable_list in Hwf.
    assert (Hl : Forall roundtrip_at l).
    { rewrite Forall_forall in *. auto. }
    rewrite dumps_list in Hf |- *. cbn [length] in Hf.
    rewrite length_app in Hf. cbn [length] in Hf.
    cbn [app scan_once N.eqb Pos.eqb]. rewrite <- app_assoc. cbn [app].
    destruct l as [|x xs]; [reflexivity|].
    rewrite skip_ws_elems by discriminate.
    destruct (dumps_start x) as (c & t & E & Hc).
    pose proof (parse_elems_dumps Hl ltac:(discriminate) (f := f) rest) as Hp.
    rewrite dumps_elems_cons in Hp |- *. rewrite E in Hp |- *.
    cbn [app] in Hp |- *.
    unfold value_start in Hc.
    apply andb_true_iff in Hc as [Hc _]. apply andb_true_iff in Hc as [_ Hc].
    apply negb_true_iff in Hc. rewrite Hc.
    rewrite Hp; [reflexivity|].
    rewrite dumps_elems_cons, E in Hf. cbn [app] in Hf. lia.
  - apply representable_dict in Hwf as [Hnd Hwf].
    assert (Hd : Forall (fun kv => str_wf (fst kv) /\ roundtrip_at (snd kv)) d).
    { rewrite Forall_forall in *. intros kv Hin. split.
      - apply (Hwf kv Hin).
      - apply (IH kv Hin), (Hwf kv Hin). }
    rewrite dumps_dict in Hf |- *. cbn [length] in Hf.
    rewrite length_app in Hf. cbn [length] in Hf.
    cbn [app scan_once N.eqb Pos.eqb]. rewrite <- app_assoc. cbn [app].
    destruct d as [|[k x] xs]; [reflexivity|].
    rewrite (pairs_head k x xs).
    cbn [skip_ws is_ws N.eqb Pos.eqb orb].
    rewrite (parse_pairs_dumps Hd ltac:(discriminate) (f := f) rest).
    + cbn [map_fst]. now rewrite dict_of_pairs_nodup.
    + lia.
Qed.

(** *** The text is printable ASCII *)

Lemma hex_digit_printable (n : N) : printable (hex_digit (n mod 16)).
Proof.
  pose proof (N.mod_lt n 16 ltac:(lia)) as H. remember (n mod 16) as r.
  unfold hex_digit, printable. destruct (N.ltb_spec r 10); lia.
Qed.

Lemma u_escape_printable (n : N) : Forall printable (u_escape n).
Proof.
  unfold u_escape.
  repeat (constructor; try apply hex_digit_printable); unfold printable; lia.
Qed.

Lemma escape_char_printable (c : N) : Forall printable (escape_char c).
Proof.
  unfold escape_char.
  repeat match goal with
         | |- context [if ?a =? ?b then _ else _] => destruct (N.eqb_spec a b)
         end;
    try (repeat constructor; unfold printable; lia).
  destruct (N.leb_spec 32 c); cbn [andb].
  - destruct (N.leb_spec c 126).
    + repeat constructor; unfold printable; lia.
    + destruct (c <? 65536); [apply u_escape_printable|].
      apply Forall_app. split; apply u_escape_printable.
  - destruct (c <? 65536); [apply u_escape_printable|].
    apply Forall_app. split; apply u_escape_printable.
Qed.

Lemma basestring_printable (s : pystr) :
  Forall printable (encode_basestring_ascii s).
Proof.
  unfold encode_basestring_ascii. constructor; [unfold printable; lia|].
  apply Forall_app. split; [|repeat constructor; unfold printable; lia].
  induction s as [|c s IH]; [constructor|].
  cbn [flat_map]. apply Forall_app. split; [apply escape_char_printable|exact IH].
Qed.

Lemma digit_printable (c : N) : is_digit c = true -> printable c.
Proof.
  unfold is_digit, printable. intros H. apply andb_true_iff in H as [H1 H2].
  apply N.leb_le in H1, H2. lia.
Qed.

Lemma repr_int_printable (z : Z) : Forall printable (repr_int z).
Proof.
  assert (H : forall n, Forall printable (repr_N n)).
  { intros n. destruct (repr_N_spec n) as (_ & Hd & _).
    eapply Forall_impl; [|exact Hd]. apply digit_printable. }
  unfold repr_int. destruct (z <? 0)%Z; [constructor|]; try apply H.
  unfold printable. lia.
Qed.

Lemma dumps_printable (v : pyval) : Forall printable (dumps v).
Proof.
  induction v as [ |b|z|s|l IH|d IH] using pyval_ind'.
  - change (dumps VNone) with [110; 117; 108; 108].
    repeat (constructor; [unfold printable; lia|]). constructor.
  - destruct b;
      [change (dumps (VBool true)) with [116; 114; 117; 101]
      |change (dumps (VBool false)) with [102; 97; 108; 115; 101]];
      repeat (constructor; [unfold printable; lia|]); constructor.
  - apply repr_int_printable.
  - apply basestring_printable.
  - rewrite dumps_list. constructor; [unfold printable; lia|].
    apply Forall_app. split; [|repeat constructor; unfold printable; lia].
    induction IH as [|x xs Hx _ IHxs]; [constructor|].
    rewrite dumps_elems_cons. apply Forall_app. split; [exact Hx|].
    destruct xs; [constructor|].
    repeat (constructor; [unfold printable; lia|]). exact IHxs.
  - rewrite dumps_dict. constructor; [unfold printable; lia|].
    apply Forall_app. split; [|repeat constructor; unfold printable; lia].
    induction IH as [|[k x] xs Hx _ IHxs]; [constructor|].
    rewrite dumps_pairs_cons. apply Forall_app.
    split; [apply basestring_printable|].
    repeat (constructor; [unfold printable; lia|]).
    apply Forall_app. split; [exact Hx|].
    destruct xs; [constructor|].
    repeat (constructor; [unfold printable; lia|]). exact IHxs.
Qed.

Lemma decode_dumps (v : pyval) :
  json_representable v -> decode (dumps v) = Some v.
Proof.
  intros Hwf. unfold decode.
  rewrite <- (app_nil_r (dumps v)) at 1 2. rewrite skip_ws_dumps, app_nil_r.
  pose proof (@scan_once_dumps v Hwf (S (length (dumps v))) []) as H.
  rewrite app_nil_r in H. rewrite H; [reflexivity | lia | reflexivity].
Qed.

Lemma loads_dumps (v : pyval) :
  json_representable v -> loads (dumps v) = Some v.
Proof.
  intros Hwf. unfold loads.
  assert (H : forallb (fun b => (0 <? b) && (b <? 128)) (dumps v) = true).
  { apply forallb_forall. intros c Hc.
    pose proof (dumps_printable v) as Hp. rewrite Forall_forall in Hp.
    specialize (Hp c Hc). unfold printable in Hp.
    apply andb_true_iff. split; apply N.ltb_lt; lia. }
  rewrite H. now apply decode_dumps.
Qed.

End JsonFacts.

(** ** State codec *)

Lemma urlsafe_b64encode_ascii (bs : list N) :
  Forall Base64.byte bs ->
  forallb (fun c => (c <? 128)%N) (Base64.urlsafe_b64encode bs) = true.
Proof.
  unfold Base64.urlsafe_b64encode.
  induction bs as [|a|a b|a b c rest IH] using Base64Facts.list_ind3;
    intros Hbs.
  - reflexivity.
  - inversion_clear Hbs as [|? ? Ha _].
    destruct (Base64Facts.sextet_bounds Ha) as (A1 & A2 & _).
    assert (Hw : (0 < 16)%N) by lia.
    destruct (Base64Facts.first_byte Ha Hw) as (C1 & _).
    cbv zeta in C1. rewrite N.lor_0_r in C1.
    cbn [Base64.b2a_base64 map forallb].
    destruct (Base64Facts.alphabet_roundtrip A1) as (_ & _ & ->).
    destruct (Base64Facts.alphabet_roundtrip C1) as (_ & _ & ->).
    reflexivity.
  - inversion_clear Hbs as [|? ? Ha Hbs']. inversion_clear Hbs' as [|? ? Hb _].
    destruct (Base64Facts.sextet_bounds Ha) as (A1 & _).
    destruct (Base64Facts.sextet_bounds Hb) as (_ & _ & B3 & _).
    destruct (Base64Facts.first_byte Ha B3) as (C1 & _).
    assert (Hy : (0 < 4)%N) by lia.
    destruct (Base64Facts.second_byte Hb Hy) as (C2 & _).
    cbv zeta in C1, C2. rewrite N.lor_0_r in C2.
    cbn [Base64.b2a_base64 map forallb].
    destruct (Base64Facts.alphabet_roundtrip A1) as (_ & _ & ->).
    destruct (Base64Facts.alphabet_roundtrip C1) as (_ & _ & ->).
    destruct (Base64Facts.alphabet_roundtrip C2) as (_ & _ & ->).
    reflexivity.
  - inversion_clear Hbs as [|? ? Ha Hbs'].
    inversion_clear Hbs' as [|? ? Hb Hbs''].
    inversion_clear Hbs'' as [|? ? Hc Hrest].
    destruct (Base64Facts.sextet_bounds Ha) as (A1 & _).
    destruct (Base64Facts.sextet_bounds Hb) as (_ & _ & B3 & _).
    destruct (Base64Facts.sextet_bounds Hc) as (_ & _ & _ & _ & C5 & C6).
    destruct (Base64Facts.first_byte Ha B3) as (C1 & _).
    destruct (Base64Facts.second_byte Hb C5) as (C2 & _).
    cbv zeta in C1, C2.
    cbn [Base64.b2a_base64 map forallb].
    destruct (Base64Facts.alphabet_roundtrip A1) as (_ & _ & ->).
    destruct (Base64Facts.alphabet_roundtrip C1) as (_ & _ & ->).
    destruct (Base64Facts.alphabet_roundtrip C2) as (_ & _ & ->).
    destruct (Base64Facts.alphabet_roundtrip C6) as (_ & _ & ->).
    cbn [andb]. exact (IH Hrest).
Qed.

Lemma urlsafe_b64decode_encode (bs : list N) :
  Forall Base64.byte bs ->
  Base64.urlsafe_b64decode (Base64.urlsafe_b64encode bs) = Some bs.
Proof.
  intros Hbs. unfold Base64.urlsafe_b64decode.
  rewrite (urlsafe_b64encode_ascii Hbs).
  unfold Base64.a2b_base64. now apply Base64Facts.a2b_b2a.
Qed.

Lemma dumps_bytes (v : pyval) : Forall Base64.byte (Json.dumps v).
Proof.
  eapply Forall_impl; [|apply JsonFacts.dumps_printable].
  unfold Json.printable, Base64.byte. intros c Hc. lia.
Qed.

(** What [_deserialize_state] computes on a string that [_serialize]
    wrote. *)
Lemma deserialize_serialized (v : pyval) :
  json_representable v ->
  _deserialize_state (VStr (_serialize v)) true = Ok v.
Proof.
  intros Hwf. unfold _deserialize_state, _serialize. cbn [negb].
  rewrite (urlsafe_b64decode_encode (dumps_bytes v)).
  now rewrite (JsonFacts.loads_dumps v Hwf).
Qed.

Lemma dict_get_in (d : dict) (k : pystr) (v : pyval) :
  NoDup (map fst d) -> In (k, v) d -> dict_get d k = Some v.
Proof.
  induction d as [|[k' v'] d IH]; intros Hnd Hin; [contradiction|].
  cbn [map fst] in Hnd. inversion_clear Hnd as [|? ? Hk' Hnd'].
  cbn [dict_get]. destruct Hin as [E|Hin].
  - inversion E; subst. now rewrite pystr_eqb_refl.
  - destruct (pystr_eqb k' k) eqn:E; [|now apply IH].
    apply pystr_eqb_eq in E. subst k'.
    exfalso. apply Hk'. change k with (fst (k, v)). now apply in_map.
Qed.

(** [v == v] holds of every JSON-representable value. *)
Lemma py_eq_refl (v : pyval) : json_representable v -> py_eq v v = true.
Proof.
  induction v as [ |b|z|s|l IH|d IH] using JsonFacts.pyval_ind'; intros Hwf.
  - reflexivity.
  - destruct b; reflexivity.
  - apply Z.eqb_refl.
  - apply pystr_eqb_refl.
  - apply JsonFacts.representable_list in Hwf.
    cbn [py_eq].
    induction IH as [|x xs Hx _ IHxs]; [reflexivity|].
    inversion_clear Hwf as [|? ? Wx Wxs].
    now rewrite (Hx Wx), (IHxs Wxs).
  - apply JsonFacts.representable_dict in Hwf as [Hnd Hwf].
    cbn [py_eq]. rewrite Nat.eqb_refl. cbn [andb].
    match goal with
    | |- ?items d = true =>
        assert (Hgen : forall e, (forall kv, In kv e -> In kv d) ->
                                 items e = true)
    end.
    { induction e as [|[k x] e IHe]; intros Hsub; [reflexivity|].
      pose proof (Hsub _ (or_introl eq_refl)) as Hin.
      rewrite (dict_get_in d k x Hnd Hin).
      rewrite Forall_forall in IH, Hwf.
      pose proof (IH _ Hin (proj2 (Hwf _ Hin))) as Hx. cbn [snd] in Hx.
      rewrite Hx. cbn [andb].
      apply IHe. intros kv Hkv. apply Hsub. now right. }
    apply Hgen. auto.
Qed.

Lemma scalar_valueb_sound (c : N) :
  scalar_valueb c = true -> scalar_value c.
Proof.
  unfold scalar_valueb, scalar_value. intros H.
  apply orb_true_iff in H as [H|H].
  - left. now apply N.ltb_lt.
  - right. apply andb_true_iff in H as [H1 H2].
    split; now apply N.ltb_lt.
Qed.

Lemma str_wf_sound (s : pystr) : forallb scalar_valueb s = true -> str_wf s.
Proof.
  intros H. apply Forall_forall. intros c Hc.
  apply scalar_valueb_sound. rewrite forallb_forall in H. now apply H.
Qed.

Lemma nodupb_sound (l : list pystr) : nodupb l = true -> NoDup l.
Proof.
  induction l as [|k l IH]; intros H; [constructor|].
  cbn [nodupb] in H. apply andb_true_iff in H as [Hk Hl].
  constructor; [|now apply IH].
  intros Hin. apply negb_true_iff in Hk.
  assert (E : existsb (pystr_eqb k) l = true).
  { apply existsb_exists. exists k. split; [exact Hin|apply pystr_eqb_refl]. }
  congruence.
Qed.

Lemma json_representableb_sound (v : pyval) :
  json_representableb v = true -> json_representable v.
Proof.
  induction v as [ |b|z|s|l IH|d IH] using JsonFacts.pyval_ind'; intros H;
    try exact I.
  - now apply str_wf_sound.
  - apply JsonFacts.representable_list.
    cbn [json_representableb] in H. rewrite forallb_forall in H.
    rewrite Forall_forall in *. intros x Hx. apply (IH x Hx), (H x Hx).
  - apply JsonFacts.representable_dict.
    cbn [json_representableb] in H. apply andb_true_iff in H as [Hnd H].
    split; [now apply nodupb_sound|].
    rewrite forallb_forall in H. rewrite Forall_forall in *.
    intros kv Hkv. specialize (H kv Hkv).
    apply andb_true_iff in H as [Hk Hx].
    split; [now apply str_wf_sound | now apply (IH kv Hkv)].
Qed.

(** ** The state codec against its specification *)



(** What raw mode accepts: the empty string, and every string whose first
    character is a letter, a digit, a comma, an equals sign or a character
    from [;] to [_]. *)
Lemma serialize_state_raw_first_char (s : pystr) :
  _serialize_state (VStr s) false =
  match s with
  | [] => Ok s
  | c :: _ => if state_pattern_set c then Raise ValueError else Ok s
  end.
Proof. destruct s; reflexivity. Qed.

(** C2: in raw mode [_serialize_state] is to reject every string with a
    character outside the raw character class.  The code only looks at the
    first character: ["abc def"] is returned unchanged although the space is
    outside the class. *)
Theorem serialize_state_raw_space :
  _serialize_state (VStr (str "abc")) false = Ok (str "abc") /\
  forallb spec_raw_class (str "abc def") = false /\
  _serialize_state (VStr (str "abc def")) false = Ok (str "abc def").
Proof. repeat split; reflexivity. Qed.

(** C4: a raw string within the raw character class is to pass through
    encoding and decoding unchanged.  In the code's pattern the hyphen makes
    a range, so a string that starts with a hyphen is rejected. *)
Theorem serialize_state_raw_hyphen :
  forallb spec_raw_class (str "-a") = true /\
  _serialize_state (VStr (str "-a")) false = Raise ValueError /\
  (s <- _serialize_state (VStr (str "-a")) false ;;
   _deserialize_state (VStr s) false) = Raise ValueError.
Proof. repeat split; reflexivity. Qed.

(** ** The request types *)

(** Where the code and the specification agree: without a client field
    the loop runs to the end, and the payload holds, in order, the items
    whose key does not start with the prefix as it is written. *)
Lemma load_from_payload_loop_no_client (d : dict) :
  (forall k v, In (k, v) d -> field_is k CLIENT_FIELD = false) ->
  forall payload client,
    NoDup (keys (payload ++ d)) ->
    InvocationRequest.load_from_payload_loop d payload client
    = (payload
       ++ filter (fun kv => negb (startswith (fst kv) FIELD_PREFIX)) d,
       client).
Proof.
  induction d as [|[k v] d IH]; intros Hnone payload client Hnd.
  - cbn. now rewrite app_nil_r.
  - assert (Hd : forall k' v', In (k', v') d ->
                               field_is k' CLIENT_FIELD = false).
    { intros k' v' Hin. apply (Hnone k' v'). now right. }
    cbn [InvocationRequest.load_from_payload_loop filter fst].
    rewrite (Hnone k v (or_introl eq_refl)).
    destruct (negb (startswith k FIELD_PREFIX)).
    + rewrite JsonFacts.dict_set_fresh.
      * rewrite (IH Hd); [now rewrite <- app_assoc|].
        now rewrite <- app_assoc.
      * unfold keys in Hnd. rewrite map_app in Hnd.
        apply NoDup_remove_2 in Hnd. intros Hin. apply Hnd.
        apply in_or_app. now left.
    + apply (IH Hd). unfold keys in *. rewrite map_app in *.
      cbn [map fst] in Hnd. now apply NoDup_remove_1 in Hnd.
Qed.

(** C1: the payload of [load_from_payload] is to hold every item whose key
    is not a reserved field.  The loop ends at the client field, so the
    items after it are lost; and the prefix test is case-sensitive, so a
    reserved field written in another case stays in the payload. *)
Theorem load_from_payload_after_client :
  let d := [(REQUEST_FIELD, VStr (str "invoke"));
            (CLIENT_FIELD, VStr (str "c1"));
            (str "foo", VInt 1)] in
  let d' := [(str "X-Api-Concierge-Request", VStr (str "invoke"));
             (str "foo", VInt 1)] in
  fst (InvocationRequest._identify d) = true /\
  spec_payload d = [(str "foo", VInt 1)] /\
  InvocationRequest.load_from_payload d true
  = Ok (InvocationRequest.Build (VDict []) (VStr (str "c1")) VNone) /\
  fst (InvocationRequest._identify d') = true /\
  spec_payload d' = [(str "foo", VInt 1)] /\
  InvocationRequest.load_from_payload d' true
  = Ok (InvocationRequest.Build
          (VDict [(str "X-Api-Concierge-Request", VStr (str "invoke"));
                  (str "foo", VInt 1)])
          VNone VNone).
Proof. repeat split; reflexivity. Qed.

(** The first item whose key is the field [F] decides a scan that stops at
    the first match. *)
Lemma first_match_split (F : pystr) (d : dict) :
  (forall k v, In (k, v) d -> field_is k F = false) \/
  exists d1 k v d2,
    d = d1 ++ (k, v) :: d2 /\ field_is k F = true /\
    forall k' v', In (k', v') d1 -> field_is k' F = false.
Proof.
  induction d as [|[k v] d IH].
  - left. intros k v [].
  - destruct (field_is k F) eqn:Hk.
    + right. exists [], k, v, d. repeat split; [exact Hk|]. intros k' v' [].
    + destruct IH as [IH|(d1 & k1 & v1 & d2 & E & Hk1 & Hd1)].
      * left. intros k' v' [H|H]; [now inversion H; subst | eauto].
      * right. exists ((k, v) :: d1), k1, v1, d2. subst d.
        repeat split; [exact Hk1|].
        intros k' v' [H|H]; [now inversion H; subst | eauto].
Qed.

Lemma is_schema_request_none (d : dict) :
  (forall k v, In (k, v) d -> field_is k REQUEST_FIELD = false) ->
  SchemaRequest.is_schema_request d = false.
Proof.
  induction d as [|[k v] d IH]; intros H; [reflexivity|].
  cbn [SchemaRequest.is_schema_request].
  rewrite (H k v (or_introl eq_refl)). apply IH. intros k' v' Hin.
  apply (H k' v'). now right.
Qed.

Lemma is_schema_request_first (d1 d2 : dict) (k : pystr) (v : pyval) :
  field_is k REQUEST_FIELD = true ->
  (forall k' v', In (k', v') d1 -> field_is k' REQUEST_FIELD = false) ->
  SchemaRequest.is_schema_request (d1 ++ (k, v) :: d2)
  = py_eq v (VStr (str "schema")).
Proof.
  intros Hk. induction d1 as [|[k1 v1] d1 IH]; intros H.
  - cbn [app SchemaRequest.is_schema_request]. now rewrite Hk.
  - cbn [app SchemaRequest.is_schema_request].
    rewrite (H k1 v1 (or_introl eq_refl)). apply IH. intros k' v' Hin.
    apply (H k' v'). now right.
Qed.

(** With distinct keys and a single key that is the request field, the
    scan answers for the one item of that key. *)
Lemma is_schema_request_unique (d : dict) :
  dict_wf d ->
  (forall k1 k2, In k1 (keys d) -> In k2 (keys d) ->
                 field_is k1 REQUEST_FIELD = true ->
                 field_is k2 REQUEST_FIELD = true -> k1 = k2) ->
  (SchemaRequest.is_schema_request d = true <->
   exists k, In (k, VStr (str "schema")) d /\ field_is k REQUEST_FIELD = true).
Proof.
  intros Hwf Huniq.
  destruct (first_match_split REQUEST_FIELD d)
    as [Hnone|(d1 & k & v & d2 & E & Hk & Hd1)].
  - rewrite (is_schema_request_none d Hnone). split; [discriminate|].
    intros (k & Hin & Hk). rewrite (Hnone _ _ Hin) in Hk. discriminate.
  - assert (Hin : In (k, v) d) by (subst d; apply in_elt).
    rewrite E at 1. rewrite (@is_schema_request_first d1 d2 k v Hk Hd1), py_eq_str.
    split.
    + intros ->. exists k. split; [exact Hin | exact Hk].
    + intros (k' & Hin' & Hk').
      assert (k' = k).
      { apply Huniq; try assumption; unfold keys.
        - change k' with (fst (k', VStr (str "schema"))). now apply in_map.
        - change k with (fst (k, v)). now apply in_map. }
      subst k'.
      pose proof (dict_get_in d k v Hwf Hin) as G1.
      pose proof (dict_get_in d k _ Hwf Hin') as G2.
      congruence.
Qed.

(** C5, as the code has it: [is_schema_request] answers for the first item
    whose key is the request field; it is true exactly when that item
    exists and its value is ["schema"].  For a mapping in which a single key
    is the request field, it is true exactly when some key is the request
    field with the value ["schema"], and the order of the items does not
    change the answer. *)
Theorem is_schema_request_spec (d : dict) :
  (SchemaRequest.is_schema_request d = true <->
   exists d1 k d2,
     d = d1 ++ (k, VStr (str "schema")) :: d2 /\
     field_is k REQUEST_FIELD = true /\
     forall k' v', In (k', v') d1 -> field_is k' REQUEST_FIELD = false) /\
  (dict_wf d ->
   (forall k1 k2, In k1 (keys d) -> In k2 (keys d) ->
                  field_is k1 REQUEST_FIELD = true ->
                  field_is k2 REQUEST_FIELD = true -> k1 = k2) ->
   (SchemaRequest.is_schema_request d = true <->
    exists k, In (k, VStr (str "schema")) d /\
              field_is k REQUEST_FIELD = true) /\
   forall d', Permutation d d' ->
              SchemaRequest.is_schema_request d'
              = SchemaRequest.is_schema_request d).
Proof.
  split.
  - destruct (first_match_split REQUEST_FIELD d)
      as [Hnone|(d1 & k & v & d2 & E & Hk & Hd1)].
    + rewrite (is_schema_request_none d Hnone). split; [discriminate|].
      intros (d1 & k & d2 & E & Hk & _).
      rewrite (Hnone k (VStr (str "schema"))) in Hk; [discriminate|].
      subst d. apply in_elt.
    + rewrite E at 1. rewrite (@is_schema_request_first d1 d2 k v Hk Hd1), py_eq_str.
      split.
      * intros ->. now exists d1, k, d2.
      * intros (e1 & k' & e2 & E' & Hk' & He1).
        pose proof (@is_schema_request_first e1 e2 k' (VStr (str "schema")) Hk' He1)
          as H1.
        pose proof (@is_schema_request_first d1 d2 k v Hk Hd1) as H2.
        rewrite <- E' in H1. rewrite <- E in H2. rewrite H1 in H2.
        symmetry in H2. apply py_eq_str. rewrite H2. apply pystr_eqb_refl.
  - intros Hwf Huniq. split; [now apply is_schema_request_unique|].
    intros d' Hperm.
    assert (Hwf' : dict_wf d').
    { unfold dict_wf, keys in *.
      eapply Permutation_NoDup; [|exact Hwf]. now apply Permutation_map. }
    assert (Huniq' : forall k1 k2, In k1 (keys d') -> In k2 (keys d') ->
                       field_is k1 REQUEST_FIELD = true ->
                       field_is k2 REQUEST_FIELD = true -> k1 = k2).
    { intros k1 k2 H1 H2. apply Huniq; unfold keys in *.
      - eapply Permutation_in; [|exact H1].
        apply Permutation_map, Permutation_sym, Hperm.
      - eapply Permutation_in; [|exact H2].
        apply Permutation_map, Permutation_sym, Hperm. }
    pose proof (@is_schema_request_unique d Hwf Huniq) as I1.
    pose proof (@is_schema_request_unique d' Hwf' Huniq') as I2.
    destruct (SchemaRequest.is_schema_request d) eqn:E1;
      destruct (SchemaRequest.is_schema_request d') eqn:E2;
      try reflexivity.
    + destruct (proj1 I1 eq_refl) as (k & Hin & Hk).
      assert (H : false = true); [|discriminate H].
      apply I2. exists k. split; [|exact Hk].
      eapply Permutation_in; [exact Hperm | exact Hin].
    + destruct (proj1 I2 eq_refl) as (k & Hin & Hk).
      assert (H : false = true); [|discriminate H].
      apply I1. exists k. split; [|exact Hk].
      eapply Permutation_in; [apply Permutation_sym, Hperm | exact Hin].
Qed.

Lemma is_schema_request_spec_witness :
  let d := [(str "X-Api-Concierge-Request", VStr (str "schema"));
            (str "foo", VInt 1)] in
  SchemaRequest.is_schema_request d = true /\
  forall d', Permutation d d' ->
             SchemaRequest.is_schema_request d'
             = SchemaRequest.is_schema_request d.
Proof.
  intros d. destruct (is_schema_request_spec d) as [_ H].
  destruct H as [_ H].
  - unfold dict_wf, d. cbn.
    repeat (constructor; try (cbn; intuition discriminate)).
  - intros k1 k2 H1 H2 F1 F2. unfold d in H1, H2. cbn in H1, H2.
    destruct H1 as [<-|[<-|[]]]; destruct H2 as [<-|[<-|[]]];
      try reflexivity; discriminate.
  - split; [reflexivity | exact H].
Defined.

(** C5 as stated fails when a second key, in another case, is the request
    field too: the later item holds ["schema"], the scan has stopped at the
    earlier one; after swapping the two items the answer changes. *)
Lemma is_schema_request_second_match :
  let d := [(REQUEST_FIELD, VStr (str "invoke"));
            (str "X-API-CONCIERGE-REQUEST", VStr (str "schema"))] in
  ~ (SchemaRequest.is_schema_request d = true <->
     exists k, In (k, VStr (str "schema")) d /\
               field_is k REQUEST_FIELD = true) /\
  dict_wf d /\
  Permutation d (rev d) /\
  SchemaRequest.is_schema_request (rev d) <> SchemaRequest.is_schema_request d.
Proof.
  intros d. repeat split.
  - intros [_ H].
    assert (E : SchemaRequest.is_schema_request d = true).
    { apply H. exists (str "X-API-CONCIERGE-REQUEST").
      split; [right; left; reflexivity | reflexivity]. }
    discriminate E.
  - unfold dict_wf, d. cbn.
    repeat (constructor; try (cbn; intuition discriminate)).
  - apply Permutation_rev.
  - discriminate.
Qed.

Lemma load_loop_none (d : dict) (client : pyval) :
  (forall k v, In (k, v) d -> field_is k CLIENT_FIELD = false) ->
  SchemaRequest.load_loop d client = client.
Proof.
  induction d as [|[k v] d IH]; intros H; [reflexivity|].
  cbn [SchemaRequest.load_loop].
  rewrite (H k v (or_introl eq_refl)). apply IH. intros k' v' Hin.
  apply (H k' v'). now right.
Qed.

Lemma load_loop_first (d1 d2 : dict) (k : pystr) (v client : pyval) :
  field_is k CLIENT_FIELD = true ->
  (forall k' v', In (k', v') d1 -> field_is k' CLIENT_FIELD = false) ->
  SchemaRequest.load_loop (d1 ++ (k, v) :: d2) client = v.
Proof.
  intros Hk. induction d1 as [|[k1 v1] d1 IH]; intros H.
  - cbn [app SchemaRequest.load_loop]. now rewrite Hk.
  - cbn [app SchemaRequest.load_loop].
    rewrite (H k1 v1 (or_introl eq_refl)). apply IH. intros k' v' Hin.
    apply (H k' v'). now right.
Qed.

(** C9: [SchemaRequest.load] raises [InvalidRequestError] exactly when
    [is_schema_request] is false.  Otherwise it returns a request whose
    client is the value of the client field of the mapping, the first one
    in iteration order, and [None] when no key is the client field.  The
    example of the specification yields the client ["c1"]. *)
Theorem schema_request_load (d : dict) :
  (SchemaRequest.load d = Raise InvalidRequestError <->
   SchemaRequest.is_schema_request d = false) /\
  (SchemaRequest.is_schema_request d = true ->
   exists r,
     SchemaRequest.load d = Ok r /\
     ((forall k v, In (k, v) d -> field_is k CLIENT_FIELD = false) ->
      SchemaRequest.client r = VNone) /\
     (forall d1 k v d2,
        d = d1 ++ (k, v) :: d2 -> field_is k CLIENT_FIELD = true ->
        (forall k' v', In (k', v') d1 -> field_is k' CLIENT_FIELD = false) ->
        SchemaRequest.client r = v)) /\
  SchemaRequest.load [(REQUEST_FIELD, VStr (str "schema"));
                      (CLIENT_FIELD, VStr (str "c1"))]
  = Ok (SchemaRequest.Build (VStr (str "c1"))).
Proof.
  unfold SchemaRequest.load. repeat split.
  - destruct (SchemaRequest.is_schema_request d); [discriminate|reflexivity].
  - intros ->. reflexivity.
  - intros ->. cbn [negb]. eexists. split; [reflexivity|]. split.
    + intros Hnone. cbn [SchemaRequest.client]. now apply load_loop_none.
    + intros d1 k v d2 -> Hk Hd1. cbn [SchemaRequest.client].
      now apply load_loop_first.
Qed.

Lemma schema_request_load_witness :
  let d := [(str "X-Api-Concierge-Client", VStr (str "c2"));
            (REQUEST_FIELD, VStr (str "schema"))] in
  exists r, SchemaRequest.load d = Ok r /\
            SchemaRequest.client r = VStr (str "c2").
Proof.
  intros d. destruct (schema_request_load d) as (_ & H & _).
  destruct (H eq_refl) as (r & Hr & _ & Hfirst).
  exists r. split; [exact Hr|].
  apply (Hfirst [] (str "X-Api-Concierge-Client") (VStr (str "c2"))
           [(REQUEST_FIELD, VStr (str "schema"))]).
  - reflexivity.
  - reflexivity.
  - intros k' v' [].
Defined.

(** ** [is_invocation_request] *)

Lemma py_ne_invoke (v : pyval) :
  negb (py_eq v (VStr (str "invoke"))) = false <-> v = VStr (str "invoke").
Proof. rewrite negb_false_iff. apply py_eq_str. Qed.

(** What a successful [_identify] says about the mapping: every request
    field holds ["invoke"], there is one unless the loop started with one,
    and the state returned is the initial one or the value of a state
    field. *)
Lemma identify_loop_true (d : dict) :
  forall request state raw,
    InvocationRequest._identify_loop d request state = (true, raw) ->
    (forall k v, In (k, v) d -> field_is k REQUEST_FIELD = true ->
                 v = VStr (str "invoke")) /\
    (request <> VNone \/
     exists k, In (k, VStr (str "invoke")) d /\
               field_is k REQUEST_FIELD = true) /\
    (raw = state \/
     exists k, In (k, raw) d /\ field_is k STATE_FIELD = true).
Proof.
  induction d as [|[k v] d IH]; intros request state raw H.
  - cbn [InvocationRequest._identify_loop] in H.
    destruct request; cbn [is_none] in H; inversion H; subst;
      (repeat split; [intros ? ? [] | left; discriminate | now left]).
  - cbn [InvocationRequest._identify_loop] in H.
    destruct (field_is k REQUEST_FIELD) eqn:Hk.
    + destruct (negb (py_eq v (VStr (str "invoke")))) eqn:Hv;
        [discriminate H|].
      apply py_ne_invoke in Hv. subst v.
      destruct (IH _ _ _ H) as (A & B & C). repeat split.
      * intros k' v' [E|Hin] Hk'; [now inversion E | eauto].
      * right. exists k. split; [now left | exact Hk].
      * destruct C as [C|(k' & Hin & Hk')]; [now left|].
        right. exists k'. split; [now right | exact Hk'].
    + destruct (field_is k STATE_FIELD) eqn:Hs.
      * destruct (IH _ _ _ H) as (A & B & C). repeat split.
        -- intros k' v' [E|Hin] Hk'; [|eauto].
           inversion E; subst. congruence.
        -- destruct B as [B|(k' & Hin & Hk')]; [now left|].
           right. exists k'. split; [now right | exact Hk'].
        -- right. destruct C as [->|(k' & Hin & Hk')].
           ++ exists k. split; [now left | exact Hs].
           ++ exists k'. split; [now right | exact Hk'].
      * destruct (IH _ _ _ H) as (A & B & C). repeat split.
        -- intros k' v' [E|Hin] Hk'; [|eauto].
           inversion E; subst. congruence.
        -- destruct B as [B|(k' & Hin & Hk')]; [now left|].
           right. exists k'. split; [now right | exact Hk'].
        -- destruct C as [C|(k' & Hin & Hk')]; [now left|].
           right. exists k'. split; [now right | exact Hk'].
Qed.

Lemma identify_loop_no_state (d : dict) :
  (forall k v, In (k, v) d -> field_is k STATE_FIELD = false) ->
  forall request state,
    snd (InvocationRequest._identify_loop d request state) = state \/
    snd (InvocationRequest._identify_loop d request state) = VNone.
Proof.
  induction d as [|[k v] d IH]; intros Hnone request state.
  - cbn [InvocationRequest._identify_loop].
    destruct (is_none request); cbn [snd]; auto.
  - cbn [InvocationRequest._identify_loop].
    assert (Hd : forall k' v', In (k', v') d ->
                               field_is k' STATE_FIELD = false).
    { intros k' v' Hin. apply (Hnone k' v'). now right. }
    rewrite (Hnone k v (or_introl eq_refl)).
    destruct (field_is k REQUEST_FIELD).
    + destruct (negb (py_eq v (VStr (str "invoke")))); cbn [snd]; auto.
    + now apply IH.
Qed.



(** C10: for a mapping identified as an invocation that has no state
    field, [is_invocation_request] with an expected state that is not
    [None], in serialized mode, raises [InvalidStateError]: the missing
    state, [None], goes to the base64 decoder, whose [TypeError] is
    wrapped. *)
Theorem is_invocation_request_missing_state (d : dict) (X : pyval) :
  fst (InvocationRequest._identify d) = true ->
  (forall k v, In (k, v) d -> field_is k STATE_FIELD = false) ->
  X <> VNone ->
  InvocationRequest.is_invocation_request d X true = Raise InvalidStateError.
Proof.
  intros Hid Hnone HX. unfold InvocationRequest.is_invocation_request.
  pose proof (identify_loop_no_state d Hnone VNone VNone) as Hsnd.
  fold (InvocationRequest._identify d) in Hsnd.
  destruct (InvocationRequest._identify d) as [result raw].
  cbn [fst snd] in Hid, Hsnd. subst result. cbn [negb].
  assert (HnX : is_none X = false) by (destruct X; cbn; congruence).
  rewrite HnX. destruct Hsnd as [->| ->]; reflexivity.
Qed.

Lemma is_invocation_request_missing_state_witness :
  InvocationRequest.is_invocation_request
    [(REQUEST_FIELD, VStr (str "invoke")); (str "foo", VInt 1)]
    (VStr (str "token")) true
  = Raise InvalidStateError.
Proof.
  apply is_invocation_request_missing_state.
  - reflexivity.
  - intros k v [E|[E|[]]]; inversion E; reflexivity.
  - discriminate.
Defined.

(** ** The response types *)

Lemma dict_get_set_same (d : dict) (k : pystr) (v : pyval) :
  dict_get (dict_set d k v) k = Some v.
Proof.
  induction d as [|[k' v'] d IH]; cbn [dict_set dict_get].
  - now rewrite pystr_eqb_refl.
  - destruct (pystr_eqb k' k) eqn:E; cbn [dict_get]; now rewrite E.
Qed.

Lemma dict_get_set_other (d : dict) (k k' : pystr) (v : pyval) :
  pystr_eqb k k' = false ->
  dict_get (dict_set d k v) k' = dict_get d k'.
Proof.
  intros Hne. induction d as [|[k1 v1] d IH]; cbn [dict_set dict_get].
  - now rewrite Hne.
  - destruct (pystr_eqb k1 k) eqn:E; cbn [dict_get].
    + apply pystr_eqb_eq in E. subst k1. now rewrite Hne.
    + now rewrite IH.
Qed.

Ltac dict_lookup :=
  repeat first
    [ rewrite dict_get_set_same
    | rewrite dict_get_set_other by reflexivity ];
  try reflexivity.

Lemma is_none_false (v : pyval) : v <> VNone -> is_none v = false.
Proof. destruct v; cbn; congruence. Qed.

Lemma serialize_state_serialized (state : pyval) :
  _serialize_state state true = Ok (_serialize state).
Proof. reflexivity. Qed.

(** C7: a [SchemaResponse] or an [ErrorResponse] with a path and no base
    is refused with [ValueError]; with both it is built, its payload holds
    the base and the path as they are, and its headers hold the serialized
    base and the path as it is.  With the default [serialized_state] both
    emitters return. *)
Theorem path_requires_base
    (error_message schema instructions state base path : pyval) :
  path <> VNone ->
  SchemaResponse.make schema instructions state VNone path
  = Raise ValueError /\
  ErrorResponse.make error_message schema state VNone path
  = Raise ValueError /\
  (base <> VNone ->
   (exists r,
      SchemaResponse.make schema instructions state base path = Ok r /\
      (exists m, SchemaResponse.get_payload r true = Ok m) /\
      (exists m, SchemaResponse.get_headers r true = Ok m) /\
      forall flag m,
        (SchemaResponse.get_payload r flag = Ok m ->
         dict_get m BASE_FIELD = Some base /\
         dict_get m PATH_FIELD = Some path) /\
        (SchemaResponse.get_headers r flag = Ok m ->
         dict_get m BASE_FIELD = Some (VStr (_serialize base)) /\
         dict_get m PATH_FIELD = Some path)) /\
   (exists r,
      ErrorResponse.make error_message schema state base path = Ok r /\
      (exists m, ErrorResponse.get_payload r true = Ok m) /\
      (exists m, ErrorResponse.get_headers r true = Ok m) /\
      forall flag m,
        (ErrorResponse.get_payload r flag = Ok m ->
         dict_get m BASE_FIELD = Some base /\
         dict_get m PATH_FIELD = Some path) /\
        (ErrorResponse.get_headers r flag = Ok m ->
         dict_get m BASE_FIELD = Some (VStr (_serialize base)) /\
         dict_get m PATH_FIELD = Some path))).
Proof.
  intros Hpath. pose proof (is_none_false Hpath) as Np.
  split; [|split].
  - unfold SchemaResponse.make, SchemaResponse.__post_init__.
    cbn [SchemaResponse.path SchemaResponse.base is_none]. now rewrite Np.
  - unfold ErrorResponse.make, ErrorResponse.__post_init__.
    cbn [ErrorResponse.path ErrorResponse.base is_none]. now rewrite Np.
  - intros Hbase. pose proof (is_none_false Hbase) as Nb. split.
    + exists (SchemaResponse.Build schema instructions state base path).
      split; [|split; [|split]].
      * unfold SchemaResponse.make, SchemaResponse.__post_init__.
        cbn [SchemaResponse.path SchemaResponse.base]. now rewrite Np, Nb.
      * unfold SchemaResponse.get_payload.
        cbn [SchemaResponse.state]. rewrite serialize_state_serialized.
        destruct (negb (is_none state)); cbn [bind]; eauto.
      * unfold SchemaResponse.get_headers.
        cbn [SchemaResponse.state]. rewrite serialize_state_serialized.
        destruct (negb (is_none state)); cbn [bind]; eauto.
      * intros flag m. split.
        -- unfold SchemaResponse.get_payload.
           cbn [SchemaResponse.state SchemaResponse.base SchemaResponse.path
                SchemaResponse.instructions SchemaResponse.schema].
           rewrite Np, Nb. cbn [negb].
           destruct (negb (is_none state));
             [destruct (_serialize_state state flag)|];
             cbn [bind]; intros H; inversion H; subst; split; dict_lookup.
        -- unfold SchemaResponse.get_headers.
           cbn [SchemaResponse.state SchemaResponse.base SchemaResponse.path
                SchemaResponse.instructions SchemaResponse.schema].
           rewrite Np, Nb. cbn [negb].
           destruct (negb (is_none state));
             [destruct (_serialize_state state flag)|];
             cbn [bind]; intros H; inversion H; subst; split; dict_lookup.
    + exists (ErrorResponse.Build error_message schema state base path).
      split; [|split; [|split]].
      * unfold ErrorResponse.make, ErrorResponse.__post_init__.
        cbn [ErrorResponse.path ErrorResponse.base]. now rewrite Np, Nb.
      * unfold ErrorResponse.get_payload.
        cbn [ErrorResponse.state]. rewrite serialize_state_serialized.
        destruct (negb (is_none state)); cbn [bind]; eauto.
      * unfold ErrorResponse.get_headers.
        cbn [ErrorResponse.state]. rewrite serialize_state_serialized.
        destruct (negb (is_none state)); cbn [bind]; eauto.
      * intros flag m. split.
        -- unfold ErrorResponse.get_payload.
           cbn [ErrorResponse.state ErrorResponse.base ErrorResponse.path
                ErrorResponse.error_message ErrorResponse.schema].
           rewrite Np, Nb. cbn [negb].
           destruct (negb (is_none state));
             [destruct (_serialize_state state flag)|];
             cbn [bind]; intros H; inversion H; subst; split; dict_lookup.
        -- unfold ErrorResponse.get_headers.
           cbn [ErrorResponse.state ErrorResponse.base ErrorResponse.path
                ErrorResponse.error_message ErrorResponse.schema].
           rewrite Np, Nb. cbn [negb].
           destruct (negb (is_none state));
             [destruct (_serialize_state state flag)|];
             cbn [bind]; intros H; inversion H; subst; split; dict_lookup.
Qed.

Lemma path_requires_base_witness :
  let schema := VDict [(str "type", VStr (str "string"))] in
  let base := VDict [(str "url", VStr (str "https://example.com"))] in
  let path := VStr (str "/next") in
  SchemaResponse.make schema VNone VNone VNone path = Raise ValueError /\
  exists r m,
    SchemaResponse.make schema VNone VNone base path = Ok r /\
    SchemaResponse.get_headers r true = Ok m /\
    dict_get m BASE_FIELD = Some (VStr (_serialize base)) /\
    dict_get m PATH_FIELD = Some path.
Proof.
  intros schema base path.
  assert (Hpath : path <> VNone) by discriminate.
  assert (Hbase : base <> VNone) by discriminate.
  destruct (@path_requires_base VNone schema VNone VNone base path Hpath)
    as (Hrefused & _ & Hbuilt).
  destruct (Hbuilt Hbase) as ((r & Hr & _ & (m & Hm) & Hemit) & _).
  split; [exact Hrefused|].
  exists r, m. split; [exact Hr|]. split; [exact Hm|].
  exact (proj2 (Hemit true m) Hm).
Defined.



(** ** Classification of requests *)

Lemma request_not_state (k : pystr) :
  field_is k REQUEST_FIELD = true -> field_is k STATE_FIELD = false.
Proof.
  unfold field_is. intros H. apply pystr_eqb_eq in H. rewrite H. reflexivity.
Qed.

Lemma identify_loop_before_request (d1 : dict) :
  (forall k v, In (k, v) d1 -> field_is k REQUEST_FIELD = false) ->
  forall d2 request state,
  exists state',
    InvocationRequest._identify_loop (d1 ++ d2) request state
    = InvocationRequest._identify_loop d2 request state'.
Proof.
  induction d1 as [|[k v] d1 IH]; intros Hnone d2 request state.
  - exists state. reflexivity.
  - cbn [app InvocationRequest._identify_loop].
    rewrite (Hnone k v (or_introl eq_refl)).
    assert (Hd : forall k' v', In (k', v') d1 ->
                               field_is k' REQUEST_FIELD = false).
    { intros k' v' Hin. apply (Hnone k' v'). now right. }
    destruct (field_is k STATE_FIELD); apply (IH Hd).
Qed.

Lemma schema_request_identify (d : dict) :
  SchemaRequest.is_schema_request d = true ->
  InvocationRequest._identify d = (false, VNone).
Proof.
  intros H.
  destruct (first_match_split REQUEST_FIELD d)
    as [Hnone|(d1 & k & v & d2 & E & Hk & Hd1)].
  - rewrite (is_schema_request_none d Hnone) in H. discriminate H.
  - subst d.
    rewrite (@is_schema_request_first d1 d2 k v Hk Hd1) in H.
    apply py_eq_str in H. subst v.
    unfold InvocationRequest._identify.
    destruct (identify_loop_before_request d1 Hd1
                ((k, VStr (str "schema")) :: d2) VNone VNone)
      as (state' & ->).
    cbn [InvocationRequest._identify_loop]. rewrite Hk. reflexivity.
Qed.

(** X1: a mapping that is a schema request is never an invocation request:
    [_identify] rejects it, [is_invocation_request] answers false for every
    expected state and mode without raising, and both loaders raise
    [InvalidRequestError]. *)
Theorem schema_request_not_invocation (d : dict) :
  SchemaRequest.is_schema_request d = true ->
  InvocationRequest._identify d = (false, VNone) /\
  (forall X flag,
     InvocationRequest.is_invocation_request d X flag = Ok false) /\
  (forall flag,
     InvocationRequest.load_from_payload d flag = Raise InvalidRequestError) /\
  (forall payload flag,
     InvocationRequest.load_from_headers d payload flag
     = Raise InvalidRequestError).
Proof.
  intros H. pose proof (schema_request_identify d H) as Hid.
  split; [exact Hid|]. split; [|split].
  - intros X flag. unfold InvocationRequest.is_invocation_request.
    now rewrite Hid.
  - intros flag. unfold InvocationRequest.load_from_payload. now rewrite Hid.
  - intros payload flag. unfold InvocationRequest.load_from_headers.
    now rewrite Hid.
Qed.

Lemma schema_request_not_invocation_witness :
  InvocationRequest.load_from_payload
    [(str "X-Api-Concierge-Request", VStr (str "schema"));
     (STATE_FIELD, VStr (str "not base64!"))] true
  = Raise InvalidRequestError.
Proof.
  apply schema_request_not_invocation. reflexivity.
Defined.

Lemma identify_loop_all_invoke (d : dict) :
  (forall k v, In (k, v) d -> field_is k REQUEST_FIELD = true ->
               v = VStr (str "invoke")) ->
  forall request state,
    fst (InvocationRequest._identify_loop d request state)
    = negb (is_none request)
      || existsb (fun kv => field_is (fst kv) REQUEST_FIELD) d.
Proof.
  induction d as [|[k v] d IH]; intros Hall request state.
  - cbn. destruct (is_none request); reflexivity.
  - assert (Hd : forall k' v', In (k', v') d ->
                   field_is k' REQUEST_FIELD = true ->
                   v' = VStr (str "invoke")).
    { intros k' v' Hin. apply (Hall k' v'). now right. }
    cbn [InvocationRequest._identify_loop existsb fst].
    destruct (field_is k REQUEST_FIELD) eqn:Hk.
    + rewrite (Hall k v (or_introl eq_refl) Hk).
      replace (negb (py_eq (VStr (str "invoke")) (VStr (str "invoke"))))
        with false by reflexivity.
      rewrite (IH Hd). cbn [is_none negb orb]. now rewrite orb_true_r.
    + destruct (field_is k STATE_FIELD); now rewrite (IH Hd).
Qed.

(** X2: without an expected state [is_invocation_request] never raises, in
    either mode, and answers true exactly when some key is the request field
    with the value ["invoke"] and no request field holds another value. *)
Theorem is_invocation_request_unpinned (d : dict) (flag : bool) :
  exists b,
    InvocationRequest.is_invocation_request d VNone flag = Ok b /\
    (b = true <->
     (exists k, In (k, VStr (str "invoke")) d /\
                field_is k REQUEST_FIELD = true) /\
     (forall k v, In (k, v) d -> field_is k REQUEST_FIELD = true ->
                  v = VStr (str "invoke"))).
Proof.
  unfold InvocationRequest.is_invocation_request.
  destruct (InvocationRequest._identify d) as [result raw] eqn:Hid.
  exists result. split; [destruct result; reflexivity|]. split.
  - intros ->. destruct (identify_loop_true _ _ _ Hid) as (A & B & _).
    split; [|exact A]. destruct B as [B|B]; [congruence | exact B].
  - intros [(k & Hin & Hk) Hall].
    pose proof (identify_loop_all_invoke d Hall VNone VNone) as E.
    fold (InvocationRequest._identify d) in E. rewrite Hid in E.
    cbn [fst is_none negb orb] in E. rewrite E.
    apply existsb_exists. exists (k, VStr (str "invoke")). now split.
Qed.

Lemma identify_loop_app (d1 : dict) :
  forall d2 request state,
    fst (InvocationRequest._identify_loop (d1 ++ d2) request state) = true ->
    exists request' state',
      InvocationRequest._identify_loop (d1 ++ d2) request state
      = InvocationRequest._identify_loop d2 request' state'.
Proof.
  induction d1 as [|[k v] d1 IH]; intros d2 request state H.
  - exists request, state. reflexivity.
  - cbn [app InvocationRequest._identify_loop] in H |- *.
    destruct (field_is k REQUEST_FIELD).
    + destruct (negb (py_eq v (VStr (str "invoke")))); [discriminate H|].
      now apply IH.
    + destruct (field_is k STATE_FIELD); now apply IH.
Qed.

(** X3: when several keys are the state field, [_identify] carries the value
    of the last one (the client loaders take the first client field). *)
Theorem identify_last_state (d1 d2 : dict) (k : pystr) (v : pyval) :
  fst (InvocationRequest._identify (d1 ++ (k, v) :: d2)) = true ->
  field_is k STATE_FIELD = true ->
  (forall k' v', In (k', v') d2 -> field_is k' STATE_FIELD = false) ->
  snd (InvocationRequest._identify (d1 ++ (k, v) :: d2)) = v.
Proof.
  unfold InvocationRequest._identify. intros Hid Hk Hd2.
  destruct (identify_loop_app d1 ((k, v) :: d2) VNone VNone Hid)
    as (request' & state' & E).
  rewrite E in Hid |- *. cbn [InvocationRequest._identify_loop] in Hid |- *.
  destruct (field_is k REQUEST_FIELD) eqn:Hr.
  - apply request_not_state in Hr. congruence.
  - rewrite Hk in Hid |- *.
    destruct (InvocationRequest._identify_loop d2 request' v)
      as [result raw] eqn:Hloop.
    cbn [fst snd] in Hid |- *. subst result.
    destruct (identify_loop_true _ _ _ Hloop) as (_ & _ & [C|C]);
      [exact C|].
    destruct C as (k' & Hin & Hk'). rewrite (Hd2 _ _ Hin) in Hk'.
    discriminate Hk'.
Qed.

Lemma identify_last_state_witness :
  snd (InvocationRequest._identify
         [(STATE_FIELD, VStr (str "first"));
          (REQUEST_FIELD, VStr (str "invoke"));
          (str "X-Api-Concierge-State", VStr (str "last"));
          (str "foo", VInt 1)])
  = VStr (str "last").
Proof.
  apply (@identify_last_state
           [(STATE_FIELD, VStr (str "first"));
            (REQUEST_FIELD, VStr (str "invoke"))]
           [(str "foo", VInt 1)]
           (str "X-Api-Concierge-State") (VStr (str "last"))).
  - reflexivity.
  - reflexivity.
  - intros k' v' [E|[]]. inversion E. reflexivity.
Defined.

(** The first item whose key satisfies [p]. *)
Lemma first_key_split (p : pystr -> bool) (d : dict) :
  (forall k v, In (k, v) d -> p k = false) \/
  exists d1 k v d2,
    d = d1 ++ (k, v) :: d2 /\ p k = true /\
    forall k' v', In (k', v') d1 -> p k' = false.
Proof.
  induction d as [|[k v] d IH].
  - left. intros k v [].
  - destruct (p k) eqn:Hk.
    + right. exists [], k, v, d. repeat split; [exact Hk|]. intros k' v' [].
    + destruct IH as [IH|(d1 & k1 & v1 & d2 & E & Hk1 & Hd1)].
      * left. intros k' v' [H|H]; [now inversion H; subst | eauto].
      * right. exists ((k, v) :: d1), k1, v1, d2. subst d.
        repeat split; [exact Hk1|].
        intros k' v' [H|H]; [now inversion H; subst | eauto].
Qed.

Lemma load_from_payload_loop_run (d : dict) :
  (forall k v, In (k, v) d ->
     startswith k FIELD_PREFIX && field_is k CLIENT_FIELD = false) ->
  forall rest payload client,
    NoDup (keys (payload ++ d)) ->
    InvocationRequest.load_from_payload_loop (d ++ rest) payload client
    = InvocationRequest.load_from_payload_loop rest
        (payload
         ++ filter (fun kv => negb (startswith (fst kv) FIELD_PREFIX)) d)
        client.
Proof.
  induction d as [|[k v] d IH]; intros Hnone rest payload client Hnd.
  - cbn. now rewrite app_nil_r.
  - assert (Hd : forall k' v', In (k', v') d ->
                   startswith k' FIELD_PREFIX && field_is k' CLIENT_FIELD
                   = false).
    { intros k' v' Hin. apply (Hnone k' v'). now right. }
    pose proof (Hnone k v (or_introl eq_refl)) as Hk.
    cbn [app InvocationRequest.load_from_payload_loop filter fst].
    destruct (startswith k FIELD_PREFIX); cbn [negb andb] in Hk |- *.
    + rewrite Hk. apply (IH Hd). unfold keys in *. rewrite map_app in *.
      cbn [map fst] in Hnd. now apply NoDup_remove_1 in Hnd.
    + rewrite JsonFacts.dict_set_fresh.
      * rewrite (IH Hd); [now rewrite <- app_assoc|].
        now rewrite <- app_assoc.
      * unfold keys in Hnd. rewrite map_app in Hnd.
        apply NoDup_remove_2 in Hnd. intros Hin. apply Hnd.
        apply in_or_app. now left.
Qed.

(** X4: what [load_from_payload] returns for a mapping with distinct keys.
    The loop stops at the first key that starts with the prefix as it is
    written and is the client field: that item gives the client, and the
    payload holds, in order, the items before it whose key does not start
    with the prefix; without such a key the whole mapping is filtered and
    the client is [None].  The payload never holds a key that starts with
    the prefix, and holds only items of the mapping. *)
Theorem load_from_payload_result (d : dict) (flag : bool)
    (r : InvocationRequest.t) :
  dict_wf d ->
  InvocationRequest.load_from_payload d flag = Ok r ->
  exists items,
    InvocationRequest.payload r = VDict items /\
    (forall k v, In (k, v) items ->
                 In (k, v) d /\ startswith k FIELD_PREFIX = false) /\
    ((forall k v, In (k, v) d ->
        startswith k FIELD_PREFIX && field_is k CLIENT_FIELD = false) ->
     items = filter (fun kv => negb (startswith (fst kv) FIELD_PREFIX)) d /\
     InvocationRequest.client r = VNone) /\
    (forall d1 k v d2,
       d = d1 ++ (k, v) :: d2 ->
       startswith k FIELD_PREFIX && field_is k CLIENT_FIELD = true ->
       (forall k' v', In (k', v') d1 ->
          startswith k' FIELD_PREFIX && field_is k' CLIENT_FIELD = false) ->
       items = filter (fun kv => negb (startswith (fst kv) FIELD_PREFIX)) d1 /\
       InvocationRequest.client r = v).
Proof.
  intros Hwf Hload. unfold InvocationRequest.load_from_payload in Hload.
  destruct (InvocationRequest._identify d) as [result raw].
  destruct result; cbn [negb] in Hload; [|discriminate Hload].
  destruct (if negb (is_none raw) then _deserialize_state raw flag
            else Ok VNone) as [kw_state|e]; cbn [bind] in Hload;
    [|discriminate Hload].
  destruct (InvocationRequest.load_from_payload_loop d [] VNone)
    as [items kw_client] eqn:Hloop.
  injection Hload as <-. cbn [InvocationRequest.payload
                               InvocationRequest.client].
  set (stops := fun k => startswith k FIELD_PREFIX
                         && field_is k CLIENT_FIELD) in *.
  set (keep := fun kv : pystr * pyval =>
                 negb (startswith (fst kv) FIELD_PREFIX)) in *.
  assert (Hnone : (forall k v, In (k, v) d -> stops k = false) ->
                  items = filter keep d /\ kw_client = VNone).
  { intros Hn.
    pose proof (@load_from_payload_loop_run d Hn [] [] VNone) as E.
    rewrite app_nil_r in E. cbn [app] in E.
    rewrite E in Hloop by exact Hwf.
    cbn [InvocationRequest.load_from_payload_loop] in Hloop.
    now injection Hloop as <- <-. }
  assert (Hfirst : forall d1 k v d2,
            d = d1 ++ (k, v) :: d2 -> stops k = true ->
            (forall k' v', In (k', v') d1 -> stops k' = false) ->
            items = filter keep d1 /\ kw_client = v).
  { intros d1 k v d2 E Hk Hd1. subst d.
    assert (Hnd : NoDup (keys ([] ++ d1))).
    { unfold dict_wf, keys in *. rewrite map_app in Hwf.
      now apply NoDup_app_remove_r in Hwf. }
    rewrite (@load_from_payload_loop_run d1 Hd1 ((k, v) :: d2) [] VNone Hnd)
      in Hloop.
    cbn [app InvocationRequest.load_from_payload_loop] in Hloop.
    unfold stops in Hk. apply andb_true_iff in Hk as [Hk1 Hk2].
    rewrite Hk1, Hk2 in Hloop. cbn [negb] in Hloop.
    now injection Hloop as <- <-. }
  exists items. split; [reflexivity|]. split; [|split; assumption].
  intros k v Hin.
  destruct (first_key_split stops d)
    as [Hn|(d1 & k1 & v1 & d2 & E & Hk1 & Hd1)].
  - destruct (Hnone Hn) as [-> _]. apply filter_In in Hin as [Hin Hk].
    split; [exact Hin|]. unfold keep in Hk. cbn [fst] in Hk.
    now apply negb_true_iff in Hk.
  - destruct (Hfirst _ _ _ _ E Hk1 Hd1) as [-> _].
    apply filter_In in Hin as [Hin Hk]. split.
    + subst d. apply in_or_app. now left.
    + unfold keep in Hk. cbn [fst] in Hk. now apply negb_true_iff in Hk.
Qed.

Lemma load_from_payload_result_witness :
  let d := [(str "foo", VInt 1);
            (REQUEST_FIELD, VStr (str "invoke"));
            (str "x-api-concierge-CLIENT", VStr (str "c1"));
            (str "bar", VInt 2)] in
  exists r,
    InvocationRequest.load_from_payload d true = Ok r /\
    InvocationRequest.payload r = VDict [(str "foo", VInt 1)] /\
    InvocationRequest.client r = VStr (str "c1").
Proof.
  intros d.
  pose (r := InvocationRequest.Build (VDict [(str "foo", VInt 1)])
               (VStr (str "c1")) VNone).
  assert (Hload : InvocationRequest.load_from_payload d true = Ok r)
    by reflexivity.
  assert (Hwf : dict_wf d).
  { apply nodupb_sound. reflexivity. }
  destruct (@load_from_payload_result d true r Hwf Hload)
    as (items & Hp & _ & _ & Hfirst).
  destruct (Hfirst [(str "foo", VInt 1); (REQUEST_FIELD, VStr (str "invoke"))]
              (str "x-api-concierge-CLIENT") (VStr (str "c1"))
              [(str "bar", VInt 2)])
    as [Hitems Hclient].
  - reflexivity.
  - reflexivity.
  - intros k' v' [E|[E|[]]]; inversion E; reflexivity.
  - exists r. split; [exact Hload|]. split; [|exact Hclient].
    rewrite Hp, Hitems. reflexivity.
Defined.



Lemma load_from_headers_loop_none (d : dict) (client : pyval) :
  (forall k v, In (k, v) d -> field_is k CLIENT_FIELD = false) ->
  InvocationRequest.load_from_headers_loop d client = client.
Proof.
  induction d as [|[k v] d IH]; intros H; [reflexivity|].
  cbn [InvocationRequest.load_from_headers_loop].
  rewrite (H k v (or_introl eq_refl)). apply IH. intros k' v' Hin.
  apply (H k' v'). now right.
Qed.

Lemma load_from_headers_loop_first (d1 d2 : dict) (k : pystr)
    (v client : pyval) :
  field_is k CLIENT_FIELD = true ->
  (forall k' v', In (k', v') d1 -> field_is k' CLIENT_FIELD = false) ->
  InvocationRequest.load_from_headers_loop (d1 ++ (k, v) :: d2) client = v.
Proof.
  intros Hk. induction d1 as [|[k1 v1] d1 IH]; intros H.
  - cbn [app InvocationRequest.load_from_headers_loop]. now rewrite Hk.
  - cbn [app InvocationRequest.load_from_headers_loop].
    rewrite (H k1 v1 (or_introl eq_refl)). apply IH. intros k' v' Hin.
    apply (H k' v'). now right.
Qed.

(** X6: [load_from_headers] hands the payload it was given back untouched,
    whatever the headers hold, and takes the client from the first header
    whose name is the client field in any case: [None] when there is no
    such header. *)
Theorem load_from_headers_result (headers : dict) (payload : pyval)
    (flag : bool) (r : InvocationRequest.t) :
  InvocationRequest.load_from_headers headers payload flag = Ok r ->
  InvocationRequest.payload r = payload /\
  ((forall k v, In (k, v) headers -> field_is k CLIENT_FIELD = false) ->
   InvocationRequest.client r = VNone) /\
  (forall d1 k v d2,
     headers = d1 ++ (k, v) :: d2 -> field_is k CLIENT_FIELD = true ->
     (forall k' v', In (k', v') d1 -> field_is k' CLIENT_FIELD = false) ->
     InvocationRequest.client r = v).
Proof.
  unfold InvocationRequest.load_from_headers.
  destruct (InvocationRequest._identify headers) as [result raw].
  destruct result; cbn [negb]; [|discriminate].
  destruct (if negb (is_none raw) then _deserialize_state raw flag
            else Ok VNone); cbn [bind]; [|discriminate].
  intros H. injection H as <-.
  cbn [InvocationRequest.payload InvocationRequest.client].
  split; [reflexivity|]. split.
  - apply load_from_headers_loop_none.
  - intros d1 k v d2 -> Hk Hd1. now apply load_from_headers_loop_first.
Qed.

Lemma load_from_headers_result_witness :
  let headers := [(str "X-Api-Concierge-Request", VStr (str "invoke"));
                  (str "X-API-CONCIERGE-CLIENT", VStr (str "cli"));
                  (str "Content-Type", VStr (str "text/plain"))] in
  exists r,
    InvocationRequest.load_from_headers headers (VStr (str "hello")) false
    = Ok r /\
    InvocationRequest.payload r = VStr (str "hello") /\
    InvocationRequest.client r = VStr (str "cli").
Proof.
  intros headers.
  pose (r := InvocationRequest.Build (VStr (str "hello")) (VStr (str "cli"))
               VNone).
  assert (H : InvocationRequest.load_from_headers headers
                (VStr (str "hello")) false = Ok r) by reflexivity.
  destruct (@load_from_headers_result headers _ _ r H) as (Hp & _ & Hc).
  exists r. split; [exact H|]. split; [exact Hp|].
  apply (Hc [(str "X-Api-Concierge-Request", VStr (str "invoke"))]
            (str "X-API-CONCIERGE-CLIENT") (VStr (str "cli"))
            [(str "Content-Type", VStr (str "text/plain"))]).
  - reflexivity.
  - reflexivity.
  - intros k' v' [E|[]]. inversion E. reflexivity.
Defined.

Lemma field_is_lower (k k' F : pystr) :
  lower k = lower k' -> field_is k F = field_is k' F.
Proof. unfold field_is. now intros ->. Qed.

(** X7: the case of the keys does not matter to the classifiers, to
    [SchemaRequest.load] and to [load_from_headers]: two mappings whose
    items agree, in order, on the lower-cased key and on the value get the
    same answers. *)
Theorem keys_case_insensitive (d d' : dict) :
  Forall2 (fun a b => lower (fst a) = lower (fst b) /\ snd a = snd b) d d' ->
  SchemaRequest.is_schema_request d = SchemaRequest.is_schema_request d' /\
  SchemaRequest.load d = SchemaRequest.load d' /\
  InvocationRequest._identify d = InvocationRequest._identify d' /\
  (forall X flag,
     InvocationRequest.is_invocation_request d X flag
     = InvocationRequest.is_invocation_request d' X flag) /\
  (forall payload flag,
     InvocationRequest.load_from_headers d payload flag
     = InvocationRequest.load_from_headers d' payload flag).
Proof.
  intros H.
  assert (E1 : SchemaRequest.is_schema_request d
               = SchemaRequest.is_schema_request d').
  { induction H as [|[k v] [k' v'] d d' [Hk Hv] _ IH]; [reflexivity|].
    cbn [fst snd] in Hk, Hv. subst v'.
    cbn [SchemaRequest.is_schema_request].
    now rewrite (@field_is_lower k k' REQUEST_FIELD Hk), IH. }
  assert (E2 : forall c, SchemaRequest.load_loop d c
                         = SchemaRequest.load_loop d' c).
  { clear - H. intros c.
    induction H as [|[k v] [k' v'] d d' [Hk Hv] _ IH]; [reflexivity|].
    cbn [fst snd] in Hk, Hv. subst v'. cbn [SchemaRequest.load_loop].
    now rewrite (@field_is_lower k k' CLIENT_FIELD Hk), IH. }
  assert (E3 : forall request state,
             InvocationRequest._identify_loop d request state
             = InvocationRequest._identify_loop d' request state).
  { clear - H.
    induction H as [|[k v] [k' v'] d d' [Hk Hv] _ IH]; [reflexivity|].
    intros request state. cbn [fst snd] in Hk, Hv. subst v'.
    cbn [InvocationRequest._identify_loop].
    rewrite (@field_is_lower k k' REQUEST_FIELD Hk),
      (@field_is_lower k k' STATE_FIELD Hk), !IH. reflexivity. }
  assert (E4 : forall c, InvocationRequest.load_from_headers_loop d c
                         = InvocationRequest.load_from_headers_loop d' c).
  { clear - H. intros c.
    induction H as [|[k v] [k' v'] d d' [Hk Hv] _ IH]; [reflexivity|].
    cbn [fst snd] in Hk, Hv. subst v'.
    cbn [InvocationRequest.load_from_headers_loop].
    now rewrite (@field_is_lower k k' CLIENT_FIELD Hk), IH. }
  split; [exact E1|]. split; [|split; [|split]].
  - unfold SchemaRequest.load. now rewrite E1, E2.
  - apply E3.
  - intros X flag. unfold InvocationRequest.is_invocation_request,
      InvocationRequest._identify. now rewrite E3.
  - intros payload flag. unfold InvocationRequest.load_from_headers,
      InvocationRequest._identify. now rewrite E3, E4.
Qed.

Lemma keys_case_insensitive_witness :
  SchemaRequest.load [(str "X-API-Concierge-REQUEST", VStr (str "schema"));
                      (str "X-Api-Concierge-Client", VStr (str "c1"))]
  = SchemaRequest.load [(REQUEST_FIELD, VStr (str "schema"));
                        (CLIENT_FIELD, VStr (str "c1"))].
Proof.
  apply keys_case_insensitive.
  repeat constructor.
Defined.

(** ** Emitted mappings *)

(** The emitters list their outcomes: a failure of [_serialize_state], or
    one of the mappings that the presence of each optional field gives. *)
Ltac emitter_cases r flag :=
  destruct r as [?a ?b state ?c ?d];
  cbn [SchemaResponse.state SchemaResponse.base SchemaResponse.path
       SchemaResponse.instructions SchemaResponse.schema
       ErrorResponse.state ErrorResponse.base ErrorResponse.path
       ErrorResponse.error_message ErrorResponse.schema];
  repeat match goal with
         | |- context [is_none ?v] =>
             let E := fresh "N" in destruct (is_none v) eqn:E
         | |- context [truthy ?v] =>
             let E := fresh "T" in destruct (truthy v) eqn:E
         end;
  cbn [negb bind];
  try (destruct (_serialize_state state flag) eqn:?; cbn [bind]).

Lemma schema_payload_keys (r : SchemaResponse.t) (flag : bool) (m : dict) :
  SchemaResponse.get_payload r flag = Ok m -> response_keys m = true.
Proof.
  unfold SchemaResponse.get_payload. emitter_cases r flag;
    intros H; inversion H; reflexivity.
Qed.

Lemma schema_headers_keys (r : SchemaResponse.t) (flag : bool) (m : dict) :
  SchemaResponse.get_headers r flag = Ok m -> response_keys m = true.
Proof.
  unfold SchemaResponse.get_headers. emitter_cases r flag;
    intros H; inversion H; reflexivity.
Qed.

Lemma error_payload_keys (r : ErrorResponse.t) (flag : bool) (m : dict) :
  ErrorResponse.get_payload r flag = Ok m -> response_keys m = true.
Proof.
  unfold ErrorResponse.get_payload. emitter_cases r flag;
    intros H; inversion H; reflexivity.
Qed.

Lemma error_headers_keys (r : ErrorResponse.t) (flag : bool) (m : dict) :
  ErrorResponse.get_headers r flag = Ok m -> response_keys m = true.
Proof.
  unfold ErrorResponse.get_headers. emitter_cases r flag;
    intros H; inversion H; reflexivity.
Qed.

Lemma dict_get_keys (d : dict) (k : pystr) :
  dict_get d k <> None <-> existsb (pystr_eqb k) (keys d) = true.
Proof.
  induction d as [|[k' v] d IH]; cbn [dict_get keys map fst existsb].
  - split; [congruence | discriminate].
  - destruct (pystr_eqb k' k) eqn:E.
    + apply pystr_eqb_eq in E. subst k'. rewrite pystr_eqb_refl.
      split; [reflexivity | discriminate].
    + assert (E' : pystr_eqb k k' = false).
      { apply pystr_eqb_neq. apply pystr_eqb_neq in E. congruence. }
      rewrite E'. exact IH.
Qed.

Lemma identify_no_request (d : dict) :
  (forall k v, In (k, v) d -> field_is k REQUEST_FIELD = false) ->
  fst (InvocationRequest._identify d) = false.
Proof.
  intros Hnone. unfold InvocationRequest._identify.
  rewrite identify_loop_all_invoke.
  - cbn [is_none negb orb]. apply not_true_is_false. intros H.
    apply existsb_exists in H as ([k v] & Hin & Hk).
    cbn [fst] in Hk. rewrite (Hnone k v Hin) in Hk. discriminate Hk.
  - intros k v Hin Hk. rewrite (Hnone k v Hin) in Hk. discriminate Hk.
Qed.

(** X8: what the four emitters never do.  A mapping returned by
    [get_payload] or [get_headers] of a [SchemaResponse] or an
    [ErrorResponse] has pairwise distinct keys, each starting with the
    reserved prefix; it holds the path only together with the base; and it
    is never taken for a request: [is_schema_request] is false,
    [is_invocation_request] answers false, [load_from_payload] raises
    [InvalidRequestError]. *)
Theorem responses_are_not_requests (m : dict) :
  (exists r flag, SchemaResponse.get_payload r flag = Ok m) \/
  (exists r flag, SchemaResponse.get_headers r flag = Ok m) \/
  (exists r flag, ErrorResponse.get_payload r flag = Ok m) \/
  (exists r flag, ErrorResponse.get_headers r flag = Ok m) ->
  dict_wf m /\
  (forall k, In k (keys m) -> startswith k FIELD_PREFIX = true) /\
  (dict_get m PATH_FIELD <> None -> dict_get m BASE_FIELD <> None) /\
  SchemaRequest.is_schema_request m = false /\
  (forall X flag,
     InvocationRequest.is_invocation_request m X flag = Ok false) /\
  (forall flag,
     InvocationRequest.load_from_payload m flag = Raise InvalidRequestError).
Proof.
  intros H.
  assert (Hk : response_keys m = true).
  { destruct H as [(r & flag & H)|[(r & flag & H)|[(r & flag & H)
                  |(r & flag & H)]]].
    - exact (schema_payload_keys r flag H).
    - exact (schema_headers_keys r flag H).
    - exact (error_payload_keys r flag H).
    - exact (error_headers_keys r flag H). }
  unfold response_keys in Hk.
  apply andb_true_iff in Hk as [Hk Himp].
  apply andb_true_iff in Hk as [Hnd Hall].
  rewrite forallb_forall in Hall.
  assert (Hreq : forall k v, In (k, v) m -> field_is k REQUEST_FIELD = false).
  { intros k v Hin.
    assert (Hkin : In k (keys m)).
    { unfold keys. change k with (fst (k, v)). now apply in_map. }
    specialize (Hall k Hkin). apply andb_true_iff in Hall as [_ Hall].
    now apply negb_true_iff in Hall. }
  pose proof (identify_no_request m Hreq) as Hid.
  split; [now apply nodupb_sound|]. split; [|split; [|split; [|split]]].
  - intros k Hin. specialize (Hall k Hin).
    now apply andb_true_iff in Hall as [Hall _].
  - intros Hpath. apply dict_get_keys. apply dict_get_keys in Hpath.
    rewrite Hpath in Himp. exact Himp.
  - now apply is_schema_request_none.
  - intros X flag. unfold InvocationRequest.is_invocation_request.
    destruct (InvocationRequest._identify m) as [result raw].
    cbn [fst] in Hid. now subst result.
  - intros flag. unfold InvocationRequest.load_from_payload.
    destruct (InvocationRequest._identify m) as [result raw].
    cbn [fst] in Hid. now subst result.
Qed.

Lemma responses_are_not_requests_witness :
  let m := [(RESPONSE_FIELD, VStr (str "error"));
            (ERROR_FIELD, VStr (str "bad input"));
            (STATE_FIELD, VStr (str "s1"))] in
  dict_wf m /\
  InvocationRequest.load_from_payload m true = Raise InvalidRequestError.
Proof.
  intros m.
  destruct (@responses_are_not_requests m) as (Hwf & _ & _ & _ & _ & Hload).
  - right. right. left.
    exists (ErrorResponse.Build (VStr (str "bad input")) VNone
              (VStr (str "s1")) VNone VNone), false.
    reflexivity.
  - split; [exact Hwf | exact (Hload true)].
Defined.

Lemma schema_payload_state (r : SchemaResponse.t) (flag : bool) (m : dict) :
  SchemaResponse.get_payload r flag = Ok m ->
  SchemaResponse.state r <> VNone ->
  exists s, _serialize_state (SchemaResponse.state r) flag = Ok s /\
            dict_get m STATE_FIELD = Some (VStr s).
Proof.
  unfold SchemaResponse.get_payload. emitter_cases r flag;
    intros H Hs; inversion H; subst;
    try (match goal with
         | N : is_none ?st = true, Hs : ?st <> VNone |- _ =>
             rewrite (is_none_false Hs) in N; discriminate N
         end);
    eexists; (split; [reflexivity|reflexivity]).
Qed.

Lemma schema_headers_state (r : SchemaResponse.t) (flag : bool) (m : dict) :
  SchemaResponse.get_headers r flag = Ok m ->
  SchemaResponse.state r <> VNone ->
  exists s, _serialize_state (SchemaResponse.state r) flag = Ok s /\
            dict_get m STATE_FIELD = Some (VStr s).
Proof.
  unfold SchemaResponse.get_headers. emitter_cases r flag;
    intros H Hs; inversion H; subst;
    try (match goal with
         | N : is_none ?st = true, Hs : ?st <> VNone |- _ =>
             rewrite (is_none_false Hs) in N; discriminate N
         end);
    eexists; (split; [reflexivity|reflexivity]).
Qed.

Lemma error_payload_state (r : ErrorResponse.t) (flag : bool) (m : dict) :
  ErrorResponse.get_payload r flag = Ok m ->
  ErrorResponse.state r <> VNone ->
  exists s, _serialize_state (ErrorResponse.state r) flag = Ok s /\
            dict_get m STATE_FIELD = Some (VStr s).
Proof.
  unfold ErrorResponse.get_payload. emitter_cases r flag;
    intros H Hs; inversion H; subst;
    try (match goal with
         | N : is_none ?st = true, Hs : ?st <> VNone |- _ =>
             rewrite (is_none_false Hs) in N; discriminate N
         end);
    eexists; (split; [reflexivity|reflexivity]).
Qed.

Lemma error_headers_state (r : ErrorResponse.t) (flag : bool) (m : dict) :
  ErrorResponse.get_headers r flag = Ok m ->
  ErrorResponse.state r <> VNone ->
  exists s, _serialize_state (ErrorResponse.state r) flag = Ok s /\
            dict_get m STATE_FIELD = Some (VStr s).
Proof.
  unfold ErrorResponse.get_headers. emitter_cases r flag;
    intros H Hs; inversion H; subst;
    try (match goal with
         | N : is_none ?st = true, Hs : ?st <> VNone |- _ =>
             rewrite (is_none_false Hs) in N; discriminate N
         end);
    eexists; (split; [reflexivity|reflexivity]).
Qed.

Lemma carried_state_loads (st : pyval) (flag : bool) (s : pystr) (d : dict) :
  st <> VNone ->
  (flag = true -> json_representable st) ->
  _serialize_state st flag = Ok s ->
  InvocationRequest._identify d = (true, VStr s) ->
  InvocationRequest.is_invocation_request d st flag = Ok true /\
  (exists q, InvocationRequest.load_from_payload d flag = Ok q /\
             InvocationRequest.state q = st) /\
  (forall payload,
     exists q, InvocationRequest.load_from_headers d payload flag = Ok q /\
               InvocationRequest.state q = st).
Proof.
  intros Hst Hwf Hs Hid.
  assert (Hde : _deserialize_state (VStr s) flag = Ok st /\
                py_eq st st = true).
  { destruct flag.
    - cbn in Hs. injection Hs as <-. split.
      + now apply deserialize_serialized, Hwf.
      + now apply py_eq_refl, Hwf.
    - cbn in Hs. destruct st; try discriminate Hs.
      destruct (re_match_state_pattern s0); [discriminate Hs|].
      injection Hs as <-. split; [reflexivity | apply pystr_eqb_refl]. }
  destruct Hde as [Hde Heq].
  unfold InvocationRequest.is_invocation_request,
    InvocationRequest.load_from_payload, InvocationRequest.load_from_headers.
  rewrite Hid. cbn [negb is_none]. rewrite (is_none_false Hst), Hde.
  cbn [bind]. rewrite Heq. split; [reflexivity|]. split.
  - destruct (InvocationRequest.load_from_payload_loop d [] VNone).
    eexists. split; reflexivity.
  - intros payload. eexists. split; reflexivity.
Qed.



(** X10: an [ErrorResponse] emits its message as it is, in the payload and
    in the headers alike, and emits the schema only when the schema is
    true in the sense of Python: [None] and also the empty dict, the empty
    list, the empty string, [0] and [False] leave the schema field out. *)
Theorem error_response_fields (r : ErrorResponse.t) (flag : bool) (m : dict) :
  (ErrorResponse.get_payload r flag = Ok m ->
   dict_get m RESPONSE_FIELD = Some (VStr (str "error")) /\
   dict_get m ERROR_FIELD = Some (ErrorResponse.error_message r) /\
   dict_get m SCHEMA_FIELD
   = if truthy (ErrorResponse.schema r)
     then Some (ErrorResponse.schema r) else None) /\
  (ErrorResponse.get_headers r flag = Ok m ->
   dict_get m RESPONSE_FIELD = Some (VStr (str "error")) /\
   dict_get m ERROR_FIELD = Some (ErrorResponse.error_message r) /\
   dict_get m SCHEMA_FIELD
   = if truthy (ErrorResponse.schema r)
     then Some (VStr (_serialize (ErrorResponse.schema r))) else None).
Proof.
  split.
  - unfold ErrorResponse.get_payload. emitter_cases r flag;
      intros H; inversion H; subst; repeat split; reflexivity.
  - unfold ErrorResponse.get_headers. emitter_cases r flag;
      intros H; inversion H; subst; repeat split; reflexivity.
Qed.

Lemma error_response_fields_witness :
  exists m,
    ErrorResponse.get_payload
      (ErrorResponse.Build (VStr (str "bad")) (VDict []) VNone VNone VNone)
      true = Ok m /\
    dict_get m SCHEMA_FIELD = None.
Proof.
  pose (r := ErrorResponse.Build (VStr (str "bad")) (VDict []) VNone VNone
               VNone).
  pose (m := [(RESPONSE_FIELD, VStr (str "error"));
              (ERROR_FIELD, VStr (str "bad"))]).
  assert (H : ErrorResponse.get_payload r true = Ok m) by reflexivity.
  exists m. split; [exact H|].
  exact (proj2 (proj2 (proj1 (@error_response_fields r true m) H))).
Defined.

(** ** The serialized form *)

Lemma urlsafe_alphabet (i : N) :
  (i < 64)%N ->
  urlsafe_char (Base64.urlsafe_encode_translation (Base64.table_b2a i)) = true.
Proof.
  intros Hi.
  apply (@forall_below_spec 64
           (fun i => urlsafe_char
                       (Base64.urlsafe_encode_translation
                          (Base64.table_b2a i))));
    [vm_compute; reflexivity | exact Hi].
Qed.

Lemma urlsafe_b64encode_chars (bs : list N) :
  Forall Base64.byte bs ->
  forallb urlsafe_char (Base64.urlsafe_b64encode bs) = true /\
  (length (Base64.urlsafe_b64encode bs) mod 4 = 0)%nat.
Proof.
  unfold Base64.urlsafe_b64encode.
  induction bs as [|a|a b|a b c rest IH] using Base64Facts.list_ind3;
    intros Hbs.
  - split; reflexivity.
  - inversion_clear Hbs as [|? ? Ha _].
    destruct (Base64Facts.sextet_bounds Ha) as (A1 & A2 & _).
    assert (Hw : (0 < 16)%N) by lia.
    destruct (Base64Facts.first_byte Ha Hw) as (C1 & _).
    cbv zeta in C1. rewrite N.lor_0_r in C1.
    cbn [Base64.b2a_base64 map forallb length].
    rewrite (urlsafe_alphabet A1), (urlsafe_alphabet C1).
    split; reflexivity.
  - inversion_clear Hbs as [|? ? Ha Hbs']. inversion_clear Hbs' as [|? ? Hb _].
    destruct (Base64Facts.sextet_bounds Ha) as (A1 & _).
    destruct (Base64Facts.sextet_bounds Hb) as (_ & _ & B3 & _).
    destruct (Base64Facts.first_byte Ha B3) as (C1 & _).
    assert (Hy : (0 < 4)%N) by lia.
    destruct (Base64Facts.second_byte Hb Hy) as (C2 & _).
    cbv zeta in C1, C2. rewrite N.lor_0_r in C2.
    cbn [Base64.b2a_base64 map forallb length].
    rewrite (urlsafe_alphabet A1), (urlsafe_alphabet C1),
      (urlsafe_alphabet C2).
    split; reflexivity.
  - inversion_clear Hbs as [|? ? Ha Hbs'].
    inversion_clear Hbs' as [|? ? Hb Hbs''].
    inversion_clear Hbs'' as [|? ? Hc Hrest].
    destruct (Base64Facts.sextet_bounds Ha) as (A1 & _).
    destruct (Base64Facts.sextet_bounds Hb) as (_ & _ & B3 & _).
    destruct (Base64Facts.sextet_bounds Hc) as (_ & _ & _ & _ & C5 & C6).
    destruct (Base64Facts.first_byte Ha B3) as (C1 & _).
    destruct (Base64Facts.second_byte Hb C5) as (C2 & _).
    cbv zeta in C1, C2.
    destruct (IH Hrest) as [IH1 IH2].
    cbn [Base64.b2a_base64 map forallb length].
    rewrite (urlsafe_alphabet A1), (urlsafe_alphabet C1),
      (urlsafe_alphabet C2), (urlsafe_alphabet C6), IH1.
    split; [reflexivity|].
    change (S (S (S (S (length (map Base64.urlsafe_encode_translation
                                  (Base64.b2a_base64 rest)))))))
      with (4 + length (map Base64.urlsafe_encode_translation
                          (Base64.b2a_base64 rest)))%nat.
    rewrite Nat.add_comm, <- (Nat.mul_1_l 4) at 1.
    rewrite Nat.Div0.mod_add. exact IH2.
Qed.

(** X11: the serialized form of any value is header-safe text: it is not
    empty, its length is a multiple of four, and every character is an
    ASCII letter, a digit, [-], [_] or the pad [=]; in particular it holds
    no [+], no [/] and no white space. *)
Theorem serialize_urlsafe (v : pyval) :
  _serialize v <> [] /\
  (length (_serialize v) mod 4 = 0)%nat /\
  forall c, In c (_serialize v) -> urlsafe_char c = true.
Proof.
  unfold _serialize.
  destruct (urlsafe_b64encode_chars (dumps_bytes v)) as [Hc Hl].
  split; [|split; [exact Hl|]].
  - destruct (JsonFacts.dumps_start v) as (c & s & E & _). rewrite E.
    unfold Base64.urlsafe_b64encode.
    destruct s as [|c1 [|c2 s]]; discriminate.
  - now apply forallb_forall.
Qed.



(** ** Schemas from type declarations *)

Lemma pytype_ind' (P : pytype -> Prop) :
  P Tstr -> P Tbool -> P Tint -> P Tfloat -> P Tlist -> P Ttuple ->
  P Tdict -> P Tother ->
  (forall origin args, Forall P args -> P (Tgeneric origin args)) ->
  forall t, P t.
Proof.
  intros H1 H2 H3 H4 H5 H6 H7 H8 HG.
  fix IH 1. intros [ | | | | | | |origin args| ]; try assumption.
  apply HG. induction args as [|a args IHa]; constructor;
    [apply IH | exact IHa].
Qed.

Lemma get_simple_schema_tuple (minor : N) (arg : pytype)
    (args : list pytype) :
  _get_simple_schema minor (Tgeneric Ttuple (arg :: args)) =
  if (minor <? 8)%N then Throw (Std ValueError)
  else
    items <~ get_simple_schema_each minor (arg :: args) ;;
    Return (VDict [(str "type", VStr (str "array"));
                   (str "items", VList items)]).
Proof. reflexivity. Qed.

Lemma get_simple_schema_each_cons (minor : N) (arg : pytype)
    (args : list pytype) :
  get_simple_schema_each minor (arg :: args) =
  x <~ _get_simple_schema minor arg ;;
  xs <~ get_simple_schema_each minor args ;;
  Return (x :: xs).
Proof. reflexivity. Qed.

Lemma representable_pairs (d : list (pystr * pyval)) :
  nodupb (map fst d) = true ->
  forallb (fun kv => forallb scalar_valueb (fst kv)) d = true ->
  Forall (fun kv => json_representable (snd kv)) d ->
  json_representable (VDict d).
Proof.
  intros Hnd Hk Hv. apply JsonFacts.representable_dict.
  split; [now apply nodupb_sound|].
  rewrite forallb_forall in Hk. rewrite Forall_forall in *.
  intros kv Hin. split; [apply str_wf_sound, Hk, Hin | apply Hv, Hin].
Qed.

Lemma basic_shape (name : string) :
  In name schema_type_names -> simple_schema_shape (type_schema name).
Proof.
  intros Hin. split.
  - apply json_representableb_sound.
    repeat (destruct Hin as [<-|Hin]; [reflexivity|]). destruct Hin.
  - exists [(str "type", VStr (str name))], name.
    split; [reflexivity|]. split; [|exact Hin].
    cbn [dict_get]. now rewrite pystr_eqb_refl.
Qed.

Lemma get_simple_schema_each_shape (minor : N) (args : list pytype) :
  Forall (fun t => forall v, _get_simple_schema minor t = Return v ->
                             simple_schema_shape v) args ->
  forall items,
    get_simple_schema_each minor args = Return items ->
    Forall json_representable items.
Proof.
  induction 1 as [|arg args Harg _ IH]; intros items H.
  - injection H as <-. constructor.
  - rewrite get_simple_schema_each_cons in H.
    destruct (_get_simple_schema minor arg) as [x|e] eqn:Ex;
      cbn [obind] in H; [|discriminate H].
    destruct (get_simple_schema_each minor args) as [xs|e] eqn:Exs;
      cbn [obind] in H; [|discriminate H].
    injection H as <-. constructor; [apply (Harg x eq_refl) | now apply IH].
Qed.

Lemma get_simple_schema_returns (minor : N) (t : pytype) (v : pyval) :
  _get_simple_schema minor t = Return v -> simple_schema_shape v.
Proof.
  revert v. induction t as [ | | | | | | | |origin args IH] using pytype_ind';
    intros v H; try (injection H as <-; apply basic_shape; cbn; tauto);
    try discriminate H.
  destruct (minor <? 8)%N eqn:Hm;
    [cbn [_get_simple_schema] in H; rewrite Hm in H; discriminate H|].
  destruct origin;
    try (cbn [_get_simple_schema] in H; rewrite Hm in H; discriminate H).
  - cbn [_get_simple_schema] in H. rewrite Hm in H.
    destruct args as [|arg args].
    + injection H as <-. apply basic_shape. cbn. tauto.
    + inversion_clear IH as [|? ? Harg _].
      destruct (_get_simple_schema minor arg) as [x|e] eqn:Ex;
        cbn [obind] in H; [|discriminate H].
      injection H as <-. destruct (Harg x eq_refl) as [Hx _].
      split.
      * apply representable_pairs; [reflexivity | reflexivity|].
        repeat constructor. exact Hx.
      * eexists _, "array"%string.
        split; [reflexivity|]. split; [reflexivity | cbn; tauto].
  - destruct args as [|arg args].
    + cbn [_get_simple_schema] in H. rewrite Hm in H.
      injection H as <-. apply basic_shape. cbn. tauto.
    + pose proof (get_simple_schema_tuple minor arg args) as E.
      rewrite Hm in E. rewrite E in H. clear E.
      destruct (get_simple_schema_each minor (arg :: args)) as [items|e]
        eqn:Ei; cbn [obind] in H; [|discriminate H].
      injection H as <-.
      pose proof (@get_simple_schema_each_shape minor (arg :: args) IH items Ei)
        as Hitems.
      split.
      * apply representable_pairs; [reflexivity | reflexivity|].
        repeat constructor. now apply JsonFacts.representable_list.
      * eexists _, "array"%string.
        split; [reflexivity|]. split; [reflexivity | cbn; tauto].
  - cbn [_get_simple_schema] in H. rewrite Hm in H.
    destruct args as [|k [|arg args]]; try discriminate H.
    inversion_clear IH as [|? ? _ IH']. inversion_clear IH' as [|? ? Harg _].
    destruct (_get_simple_schema minor arg) as [x|e] eqn:Ex;
      cbn [obind] in H; [|discriminate H].
    injection H as <-. destruct (Harg x eq_refl) as [Hx _].
    split.
    + apply representable_pairs; [reflexivity | reflexivity|].
      repeat constructor. exact Hx.
    + eexists _, "object"%string.
      split; [reflexivity|]. split; [reflexivity | cbn; tauto].
Qed.

(** X13: whatever [_get_simple_schema] returns is a JSON-representable
    dict whose ["type"] entry is one of the six JSON Schema type names; a
    float or any value outside JSON never appears in it. *)
Theorem get_simple_schema_shape (minor : N) (t : pytype) (v : pyval) :
  _get_simple_schema minor t = Return v -> simple_schema_shape v.
Proof. apply get_simple_schema_returns. Qed.

Lemma get_simple_schema_shape_witness :
  simple_schema_shape
    (VDict [(str "type", VStr (str "object"));
            (str "additionalProperties",
             VDict [(str "type", VStr (str "array"));
                    (str "items", VDict [(str "type", VStr (str "integer"))])])]).
Proof.
  apply (@get_simple_schema_shape 11
           (Tgeneric Tdict [Tstr; Tgeneric Tlist [Tint]])).
  reflexivity.
Defined.

Lemma get_simple_schema_each_throws (minor : N) (args : list pytype) :
  Forall (fun t => forall e, _get_simple_schema minor t = Throw e ->
                             e = Std ValueError \/
                             (e = IndexError /\ (8 <= minor)%N)) args ->
  forall e,
    get_simple_schema_each minor args = Throw e ->
    e = Std ValueError \/ (e = IndexError /\ (8 <= minor)%N).
Proof.
  induction 1 as [|a l Ha _ IHl]; intros e Ei; [discriminate Ei|].
  rewrite get_simple_schema_each_cons in Ei.
  destruct (_get_simple_schema minor a) as [x|e1] eqn:Ex; cbn [obind] in Ei.
  - destruct (get_simple_schema_each minor l) as [xs|e2] eqn:Exs;
      cbn [obind] in Ei; [discriminate Ei|].
    injection Ei as <-. now apply IHl.
  - injection Ei as <-. now apply Ha.
Qed.

Lemma get_simple_schema_throws (minor : N) (t : pytype) (e : pyexn) :
  _get_simple_schema minor t = Throw e ->
  e = Std ValueError \/ (e = IndexError /\ (8 <= minor)%N).
Proof.
  revert e. induction t as [ | | | | | | | |origin args IH] using pytype_ind';
    intros e H; try discriminate H; try (injection H as <-; now left).
  destruct (minor <? 8)%N eqn:Hm;
    [cbn [_get_simple_schema] in H; rewrite Hm in H;
     injection H as <-; now left|].
  apply N.ltb_ge in Hm as Hge.
  destruct origin;
    try (cbn [_get_simple_schema] in H; rewrite Hm in H;
         injection H as <-; now left).
  - cbn [_get_simple_schema] in H. rewrite Hm in H.
    destruct args as [|arg args]; [discriminate H|].
    inversion_clear IH as [|? ? Harg _].
    destruct (_get_simple_schema minor arg) as [x|e'] eqn:Ex;
      cbn [obind] in H; [discriminate H|].
    injection H as <-. destruct (Harg e' eq_refl) as [->|[-> _]]; auto.
  - destruct args as [|arg args];
      [cbn [_get_simple_schema] in H; rewrite Hm in H; discriminate H|].
    pose proof (get_simple_schema_tuple minor arg args) as E.
    rewrite Hm in E. rewrite E in H. clear E.
    destruct (get_simple_schema_each minor (arg :: args)) as [items|e']
      eqn:Ei; cbn [obind] in H; [discriminate H|].
    injection H as <-.
    exact (@get_simple_schema_each_throws minor (arg :: args) IH e' Ei).
  - cbn [_get_simple_schema] in H. rewrite Hm in H.
    destruct args as [|k [|arg args]];
      try (injection H as <-; right; now split).
    inversion_clear IH as [|? ? _ IH']. inversion_clear IH' as [|? ? Harg _].
    destruct (_get_simple_schema minor arg) as [x|e'] eqn:Ex;
      cbn [obind] in H; [discriminate H|].
    injection H as <-. now apply Harg.
Qed.

(** What the loop of [simple_schema] leaves: the converted items, or the
    first item whose type is refused. *)
Lemma simple_schema_loop_spec (minor : N) (schema : list (pystr * pytype)) :
  forall properties,
    match simple_schema_loop minor schema properties with
    | Return out =>
        exists xs,
          Forall2 (fun kt kx =>
                     fst kt = fst kx /\
                     _get_simple_schema minor (snd kt) = Return (snd kx))
                  schema xs /\
          out = fold_left (fun a kx => dict_set a (fst kx) (snd kx)) xs
                  properties
    | Throw e =>
        exists d1 k t d2,
          schema = d1 ++ (k, t) :: d2 /\
          (forall k' t', In (k', t') d1 ->
             exists x, _get_simple_schema minor t' = Return x) /\
          _get_simple_schema minor t = Throw e
    end.
Proof.
  induction schema as [|[k t] schema IH]; intros properties.
  - exists []. split; [constructor | reflexivity].
  - cbn [simple_schema_loop].
    destruct (_get_simple_schema minor t) as [x|e] eqn:Ex; cbn [obind].
    + specialize (IH (dict_set properties k x)).
      destruct (simple_schema_loop minor schema (dict_set properties k x))
        as [out|e].
      * destruct IH as (xs & Hxs & ->). exists ((k, x) :: xs).
        split; [|reflexivity]. constructor; [now split | exact Hxs].
      * destruct IH as (d1 & k1 & t1 & d2 & -> & Hd1 & Ht1).
        exists ((k, t) :: d1), k1, t1, d2. split; [reflexivity|].
        split; [|exact Ht1].
        intros k' t' [E|Hin]; [inversion E; subst; eauto | eauto].
    + exists [], k, t, schema. split; [reflexivity|].
      split; [intros k' t' [] | exact Ex].
Qed.

(** X14: [simple_schema] fails exactly when one of the declared types is
    refused by [_get_simple_schema]; it then raises the exception of the
    first such item in iteration order, which is a [ValueError] or, for a
    dict alias with fewer than two arguments on Python 3.8 or later, an
    [IndexError]. *)
Theorem simple_schema_failure (minor : N) (schema : list (pystr * pytype))
    (required : pyval) (additional_properties : bool) :
  ((exists out,
      simple_schema minor schema required additional_properties = Return out)
   <->
   (forall k t, In (k, t) schema ->
      exists x, _get_simple_schema minor t = Return x)) /\
  (forall e,
     simple_schema minor schema required additional_properties = Throw e ->
     (e = Std ValueError \/ (e = IndexError /\ (8 <= minor)%N)) /\
     exists d1 k t d2,
       schema = d1 ++ (k, t) :: d2 /\
       (forall k' t', In (k', t') d1 ->
          exists x, _get_simple_schema minor t' = Return x) /\
       _get_simple_schema minor t = Throw e).
Proof.
  unfold simple_schema.
  pose proof (simple_schema_loop_spec minor schema []) as Hloop.
  destruct (simple_schema_loop minor schema []) as [props|e0];
    cbn [obind].
  - destruct Hloop as (xs & Hxs & _). split.
    + split; [|eauto]. intros _ k t Hin.
      clear - Hxs Hin. induction Hxs as [|kt kx s xs [_ H] _ IH];
        [destruct Hin|].
      destruct Hin as [->|Hin]; [cbn [snd] in H; eauto | now apply IH].
    + discriminate.
  - destruct Hloop as (d1 & k & t & d2 & -> & Hd1 & Ht). split.
    + split; [intros [out H]; discriminate H|].
      intros Hall. destruct (Hall k t) as [x Hx]; [apply in_elt|].
      congruence.
    + intros e H. injection H as <-. split.
      * exact (get_simple_schema_throws minor t Ht).
      * exists d1, k, t, d2. auto.
Qed.

Lemma simple_schema_failure_witness :
  simple_schema 11
    [(str "name", Tstr); (str "tags", Tgeneric Tdict []); (str "x", Tother)]
    (VBool true) false
  = Throw IndexError /\ (8 <= 11)%N.
Proof.
  pose (schema := [(str "name", Tstr); (str "tags", Tgeneric Tdict []);
                   (str "x", Tother)]).
  assert (H : simple_schema 11 schema (VBool true) false = Throw IndexError)
    by reflexivity.
  destruct (proj2 (simple_schema_failure 11 schema (VBool true) false)
              IndexError H) as [[E|[_ Hge]] _].
  - discriminate E.
  - split; [exact H | exact Hge].
Defined.

Lemma converted_keys (minor : N) (schema : list (pystr * pytype))
    (xs : list (pystr * pyval)) :
  Forall2 (fun kt kx =>
             fst kt = fst kx /\
             _get_simple_schema minor (snd kt) = Return (snd kx)) schema xs ->
  map fst xs = map fst schema /\
  (forall k t, In (k, t) schema ->
     exists x, _get_simple_schema minor t = Return x /\ In (k, x) xs) /\
  Forall (fun kx => json_representable (snd kx)) xs.
Proof.
  induction 1 as [|[k t] [k' x] schema xs [Hk Hx] _ IH].
  - repeat split; [intros k t [] | constructor].
  - cbn [fst snd] in Hk, Hx. subst k'.
    destruct IH as (IH1 & IH2 & IH3). cbn [map fst]. split; [|split].
    + now rewrite IH1.
    + intros k0 t0 [E|Hin].
      * inversion E; subst. exists x. split; [exact Hx | now left].
      * destruct (IH2 k0 t0 Hin) as (x0 & Hx0 & Hin0).
        exists x0. split; [exact Hx0 | now right].
    + constructor; [|exact IH3]. cbn [snd].
      exact (proj1 (get_simple_schema_returns minor t Hx)).
Qed.

(** X15: what [simple_schema] builds from a mapping with distinct keys.
    Its ["properties"] hold, under the same keys in the same order, what
    [_get_simple_schema] gives for each declared type.  ["required"] lists
    all the keys for [required=True], is left out for [required=False], and
    is any other value as given.  ["additionalProperties"] is [False]
    unless [additional_properties] was set, and is then left out. *)
Theorem simple_schema_result (minor : N) (schema : list (pystr * pytype))
    (required : pyval) (additional_properties : bool) (out : dict) :
  NoDup (map fst schema) ->
  simple_schema minor schema required additional_properties = Return out ->
  exists properties,
    dict_get out (str "properties") = Some (VDict properties) /\
    keys properties = map fst schema /\
    (forall k t, In (k, t) schema ->
       exists x, _get_simple_schema minor t = Return x /\
                 dict_get properties k = Some x) /\
    dict_get out (str "required")
    = match required with
      | VBool true => Some (VList (map VStr (map fst schema)))
      | VBool false => None
      | v => Some v
      end /\
    dict_get out (str "additionalProperties")
    = if additional_properties then None else Some (VBool false).
Proof.
  intros Hnd H. unfold simple_schema in H.
  pose proof (simple_schema_loop_spec minor schema []) as Hloop.
  destruct (simple_schema_loop minor schema []) as [props|e];
    cbn [obind] in H; [|discriminate H].
  destruct Hloop as (xs & Hxs & Hprops).
  destruct (@converted_keys minor schema xs Hxs) as (Hkeys & Hitems & _).
  assert (E : props = xs).
  { rewrite Hprops. apply JsonFacts.dict_of_pairs_nodup. now rewrite Hkeys. }
  clear Hprops. subst props.
  exists xs. injection H as <-.
  split; [|split; [exact Hkeys|split; [|split]]].
  - destruct required as [ |[|]| | | | ], additional_properties; reflexivity.
  - intros k t Hin. destruct (Hitems k t Hin) as (x & Hx & Hinx).
    exists x. split; [exact Hx|]. apply dict_get_in; [|exact Hinx].
    now rewrite Hkeys.
  - unfold keys. rewrite Hkeys.
    destruct required as [ |[|]| | | | ], additional_properties; reflexivity.
  - destruct required as [ |[|]| | | | ], additional_properties; reflexivity.
Qed.

Lemma simple_schema_result_witness :
  let schema := [(str "name", Tstr); (str "ages", Tgeneric Tlist [Tint])] in
  exists out,
    simple_schema 11 schema (VBool true) false = Return out /\
    dict_get out (str "required")
    = Some (VList [VStr (str "name"); VStr (str "ages")]) /\
    dict_get out (str "additionalProperties") = Some (VBool false).
Proof.
  intros schema.
  destruct (simple_schema 11 schema (VBool true) false) as [out|e] eqn:E;
    [|discriminate E].
  assert (Hnd : NoDup (map fst schema)) by (apply nodupb_sound; reflexivity).
  destruct (@simple_schema_result 11 schema (VBool true) false out Hnd E)
    as (props & _ & _ & _ & Hreq & Hadd).
  exists out. split; [reflexivity|]. split; [exact Hreq | exact Hadd].
Defined.



(** ** The Lambda handler *)

Lemma schema_response_plain (schema instructions : pyval) :
  (response <- SchemaResponse.make schema instructions VNone VNone VNone ;;
   SchemaResponse.get_payload response true)
  = Ok ([(RESPONSE_FIELD, VStr (str "schema")); (SCHEMA_FIELD, schema)]
        ++ if is_none instructions then []
           else [(INSTRUCTIONS_FIELD, instructions)]) /\
  (response <- SchemaResponse.make schema instructions VNone VNone VNone ;;
   SchemaResponse.get_headers response true)
  = Ok ([(RESPONSE_FIELD, VStr (str "schema"));
         (SCHEMA_FIELD, VStr (_serialize schema))]
        ++ if is_none instructions then []
           else [(INSTRUCTIONS_FIELD, instructions)]).
Proof.
  unfold SchemaResponse.make, SchemaResponse.__post_init__,
    SchemaResponse.get_payload, SchemaResponse.get_headers.
  cbn [SchemaResponse.path SchemaResponse.base SchemaResponse.state
       SchemaResponse.instructions SchemaResponse.schema is_none negb andb
       bind].
  destruct (is_none instructions); split; reflexivity.
Qed.

(** X17: on a schema request the handler made by the Lambda
    [api_concierge_handler] answers by itself: it never raises, never calls
    the wrapped function, and returns the payload of the schema response,
    which holds the response marker, the schema as it is and, when given,
    the instructions. *)
Theorem lambda_handler_schema_request (schema instructions : pyval)
    (f : pyval -> pyval -> result pyval) (event : dict) (context : pyval) :
  SchemaRequest.is_schema_request event = true ->
  AwsLambda.api_concierge_handler schema instructions f event context
  = Ok (VDict ([(RESPONSE_FIELD, VStr (str "schema"));
                (SCHEMA_FIELD, schema)]
               ++ if is_none instructions then []
                  else [(INSTRUCTIONS_FIELD, instructions)])).
Proof.
  intros H. unfold AwsLambda.api_concierge_handler. rewrite H.
  destruct (schema_response_plain schema instructions) as [E _].
  destruct (SchemaResponse.make schema instructions VNone VNone VNone)
    as [response|e]; cbn [bind] in E |- *; [|discriminate E].
  rewrite E. reflexivity.
Qed.

Lemma lambda_handler_schema_request_witness :
  AwsLambda.api_concierge_handler (VDict []) (VStr (str "fill in"))
    (fun _ _ => Raise TypeError)
    [(str "X-Api-Concierge-Request", VStr (str "schema"))] VNone
  = Ok (VDict [(RESPONSE_FIELD, VStr (str "schema"));
               (SCHEMA_FIELD, VDict []);
               (INSTRUCTIONS_FIELD, VStr (str "fill in"))]).
Proof.
  apply lambda_handler_schema_request. reflexivity.
Defined.

Lemma identified_not_schema_request (d : dict) :
  fst (InvocationRequest._identify d) = true ->
  SchemaRequest.is_schema_request d = false.
Proof.
  intros H. destruct (SchemaRequest.is_schema_request d) eqn:E;
    [|reflexivity].
  rewrite (schema_request_identify d E) in H. discriminate H.
Qed.



(** ** The API Gateway adapter *)

(** X19: an event without a usable body, in body mode.  When the event has
    no ["body"] key, [is_schema_request] answers false and
    [load_schema_request] returns [None], while [is_invocation_request] and
    [load_invoke_request] raise [KeyError].  When the body is present but
    not a string, the latter two raise [TypeError], and the former two
    answer false and [None] only if the body is false in the sense of
    Python: otherwise they raise [TypeError] too. *)
Theorem gateway_body_missing (event : dict) (X : pyval) :
  (dict_get event (str "body") = None ->
   ApiGatewayProxy.is_schema_request event ApiGatewayProxy.Body
   = Return false /\
   ApiGatewayProxy.load_schema_request event ApiGatewayProxy.Body
   = Return None /\
   ApiGatewayProxy.is_invocation_request event ApiGatewayProxy.Body X
   = Throw KeyError /\
   ApiGatewayProxy.load_invoke_request event ApiGatewayProxy.Body
   = Throw KeyError) /\
  (forall v,
     dict_get event (str "body") = Some v ->
     (forall s, v <> VStr s) ->
     ApiGatewayProxy.is_invocation_request event ApiGatewayProxy.Body X
     = Throw (Std TypeError) /\
     ApiGatewayProxy.load_invoke_request event ApiGatewayProxy.Body
     = Throw (Std TypeError) /\
     ApiGatewayProxy.is_schema_request event ApiGatewayProxy.Body
     = (if truthy v then Throw (Std TypeError) else Return false) /\
     ApiGatewayProxy.load_schema_request event ApiGatewayProxy.Body
     = (if truthy v then Throw (Std TypeError) else Return None)).
Proof.
  unfold ApiGatewayProxy.is_schema_request,
    ApiGatewayProxy.load_schema_request,
    ApiGatewayProxy.is_invocation_request,
    ApiGatewayProxy.load_invoke_request,
    ApiGatewayProxy.event_get, ApiGatewayProxy.event_item.
  split.
  - intros ->. repeat split.
  - intros v -> Hv.
    destruct v as [ |b|z|s|l|d]; try (now elim (Hv s));
      cbn [truthy ApiGatewayProxy.json_loads obind
           ApiGatewayProxy.try_except ApiGatewayProxy.isValueError
           ApiGatewayProxy.isJSONDecodeError negb];
      repeat split;
      match goal with
      | |- context [if ?c then _ else _] => destruct c; reflexivity
      | _ => reflexivity
      end.
Qed.

Lemma gateway_body_missing_witness :
  ApiGatewayProxy.is_schema_request
    [(str "headers", VDict [])] ApiGatewayProxy.Body = Return false /\
  ApiGatewayProxy.is_invocation_request
    [(str "headers", VDict [])] ApiGatewayProxy.Body VNone = Throw KeyError.
Proof.
  destruct (gateway_body_missing [(str "headers", VDict [])] VNone)
    as [H _].
  destruct (H eq_refl) as (H1 & _ & H3 & _).
  split; [exact H1 | exact H3].
Defined.





Lemma urlsafe_char_scalar (c : N) : urlsafe_char c = true -> scalar_value c.
Proof.
  unfold urlsafe_char, scalar_value. intros H. left.
  repeat (apply orb_true_iff in H as [H|H]);
    try (apply andb_true_iff in H as [_ H]; apply N.leb_le in H; lia);
    apply N.eqb_eq in H; lia.
Qed.

Lemma serialize_str_wf (v : pyval) : str_wf (_serialize v).
Proof.
  apply Forall_forall. intros c Hc. apply urlsafe_char_scalar.
  destruct (urlsafe_b64encode_chars (dumps_bytes v)) as [H _].
  rewrite forallb_forall in H. now apply H.
Qed.

Lemma serialize_state_str_wf (state : pyval) (s : pystr) :
  _serialize_state state true = Ok s -> json_representable (VStr s).
Proof. intros H. injection H as <-. apply serialize_str_wf. Qed.

Lemma schema_payload_representable (r : SchemaResponse.t) (m : dict) :
  json_representable (SchemaResponse.schema r) ->
  json_representable (SchemaResponse.instructions r) ->
  json_representable (SchemaResponse.base r) ->
  json_representable (SchemaResponse.path r) ->
  SchemaResponse.get_payload r true = Ok m ->
  json_representable (VDict m).
Proof.
  unfold SchemaResponse.get_payload. emitter_cases r true;
    intros Hs Hi Hb Hp H; inversion H; subst;
    (apply representable_pairs; [reflexivity | reflexivity|]);
    repeat (apply Forall_cons;
            [cbn [snd];
             first [assumption | exact I
                   | eapply serialize_state_str_wf; eassumption
                   | apply json_representableb_sound; reflexivity]|]);
    apply Forall_nil.
Qed.

Lemma error_payload_representable (r : ErrorResponse.t) (m : dict) :
  json_representable (ErrorResponse.error_message r) ->
  json_representable (ErrorResponse.schema r) ->
  json_representable (ErrorResponse.base r) ->
  json_representable (ErrorResponse.path r) ->
  ErrorResponse.get_payload r true = Ok m ->
  json_representable (VDict m).
Proof.
  unfold ErrorResponse.get_payload. emitter_cases r true;
    intros Hs Hi Hb Hp H; inversion H; subst;
    (apply representable_pairs; [reflexivity | reflexivity|]);
    repeat (apply Forall_cons;
            [cbn [snd];
             first [assumption | exact I
                   | eapply serialize_state_str_wf; eassumption
                   | apply json_representableb_sound; reflexivity]|]);
    apply Forall_nil.
Qed.



Lemma gateway_is_schema_request_throws (event : dict)
    (mode : ApiGatewayProxy.EventMode) (e : pyexn) :
  ApiGatewayProxy.is_schema_request event mode = Throw e ->
  mode = ApiGatewayProxy.Body /\ e = Std TypeError.
Proof.
  unfold ApiGatewayProxy.is_schema_request, ApiGatewayProxy.event_get,
    ApiGatewayProxy.event_item.
  destruct mode.
  - destruct (dict_get event (str "body")) as [v|];
      [|cbn; discriminate].
    destruct (negb (truthy v)); [discriminate|].
    cbn [obind]. destruct v as [ |b|z|s|l|d];
      cbn [ApiGatewayProxy.json_loads obind ApiGatewayProxy.try_except
           ApiGatewayProxy.isJSONDecodeError];
      try (intros H; injection H as <-; now split).
    destruct (Json.decode s) as [[ | | | | |p]|];
      cbn [obind ApiGatewayProxy.try_except
           ApiGatewayProxy.isJSONDecodeError]; discriminate.
  - destruct (dict_get event (str "headers")) as [[ | | | | |h]|];
      discriminate.
Qed.




